(** * wger: the exercise image model ([wger/exercises/models/image.py])

    A shallow embedding of the [ExerciseImage] model and of its three hooks
    ([save], [delete], [set_author]) together with the upload path helper
    [exercise_image_upload_dir], followed by the properties the
    specification states about them.

    The image table is a finite map from primary keys to rows; the hooks run
    in a small state-and-exception monad over a [World] that holds the table,
    the configured languages, the log of cache invalidations, the log of
    store writes and the mails handed to the mail transport. *)

From Stdlib Require Import Ascii.
From stdpp Require Import gmap strings list fin_maps sorting pretty.

(** ** Python strings *)

Module PyStr.

(** [s.rfind(c)]: index of the last occurrence of [c], [-1] when absent. *)
Fixpoint rfind (c : ascii) (s : string) : Z :=
  match s with
  | EmptyString => (-1)%Z
  | String a s' =>
      let r := rfind c s' in
      if (0 <=? r)%Z then (r + 1)%Z
      else if Ascii.eqb a c then 0%Z else (-1)%Z
  end.

(** [s[i:]] for a non-negative [i]. *)
Fixpoint drop (i : nat) (s : string) : string :=
  match i, s with
  | O, _ => s
  | S i', String _ s' => drop i' s'
  | S _, EmptyString => EmptyString
  end.

(** [s[:i]] for a non-negative [i]. *)
Fixpoint take (i : nat) (s : string) : string :=
  match i, s with
  | O, _ => EmptyString
  | S i', String a s' => String a (take i' s')
  | S _, EmptyString => EmptyString
  end.

(** [s.split(sep)] for a one-character separator: never empty, the parts
    between the separators, in order. *)
Fixpoint split (sep : ascii) (s : string) : list string :=
  match s with
  | EmptyString => [EmptyString]
  | String a s' =>
      if Ascii.eqb a sep then EmptyString :: split sep s'
      else match split sep s' with
           | p :: ps => String a p :: ps
           | [] => [String a EmptyString]
           end
  end.

(** [c in s] *)
Fixpoint contains (c : ascii) (s : string) : bool :=
  match s with
  | EmptyString => false
  | String a s' => Ascii.eqb a c || contains c s'
  end.

Definition digit_value (c : ascii) : option nat :=
  let n := nat_of_ascii c in
  if bool_decide (48 ≤ n ∧ n ≤ 57) then Some (n - 48) else None.

(** [tpl.format] applied to [args] for the templates of this module: positional fields
    [{0}] to [{9}] and the doubled braces; [None] is the exception Python
    raises on any other use of a brace or on a missing argument.  The
    arguments are given already converted by [str]. *)
Fixpoint format (tpl : string) (args : list string) : option string :=
  match tpl with
  | EmptyString => Some EmptyString
  | String "{"%char (String "{"%char rest) => String "{"%char <$> format rest args
  | String "}"%char (String "}"%char rest) => String "}"%char <$> format rest args
  | String "{"%char (String d (String "}"%char rest)) =>
      i ← digit_value d;
      a ← args !! i;
      s ← format rest args;
      Some (a +:+ s)
  | String "{"%char _ => None
  | String "}"%char _ => None
  | String c rest => String c <$> format rest args
  end.

Definition hex_digit (n : N) : ascii :=
  ascii_of_N (if (n <? 10)%N then 48 + n else 87 + n)%N.

(** ['%0<width>x' % v] for [v] below [16 ^ width]. *)
Fixpoint hex_fixed (width : nat) (v : N) : string :=
  match width with
  | O => EmptyString
  | S w => hex_fixed w (v / 16)%N +:+ String (hex_digit (v mod 16)%N) EmptyString
  end.

End PyStr.

(** ** [pathlib.PurePosixPath]: the two properties the module reads *)

Module PathLib.

(** The components of a path: the parts between slashes, without the empty
    ones and without the single dots. *)
Definition parts (p : string) : list string :=
  filter (λ c, c ≠ "" ∧ c ≠ ".") (PyStr.split "/"%char p).

(** [Path(p).name]: the final component, empty when there is none. *)
Definition name (p : string) : string := default "" (last (parts p)).

(** [Path(p).suffix]. *)
Definition suffix (p : string) : string :=
  let name := name p in
  let i := PyStr.rfind "."%char name in
  if bool_decide (0 < i ∧ i < Z.of_nat (String.length name) - 1)%Z
  then PyStr.drop (Z.to_nat i) name
  else "".

End PathLib.

(** [str(u)] of a [uuid.UUID] whose 128-bit integer is [u]. *)
Definition uuid_str (u : N) : string :=
  let hex := PyStr.hex_fixed 32 u in
  PyStr.take 8 hex +:+ "-" +:+
  PyStr.take 4 (PyStr.drop 8 hex) +:+ "-" +:+
  PyStr.take 4 (PyStr.drop 12 hex) +:+ "-" +:+
  PyStr.take 4 (PyStr.drop 16 hex) +:+ "-" +:+
  PyStr.drop 20 hex.

(** ** The data model *)

(** [AbstractSubmissionModel.status]; new records are pending. *)
Inductive Status := STATUS_PENDING | STATUS_ACCEPTED | STATUS_DECLINED.

Inductive Style := LINE_ART | THREE_D | LOW_POLY | PHOTO | OTHER.

#[global] Instance Status_eq_dec : EqDecision Status.
Proof. solve_decision. Defined.
#[global] Instance Style_eq_dec : EqDecision Style.
Proof. solve_decision. Defined.

(** An [ExerciseImage] instance.  [id] is [None] until the store has assigned
    a primary key.  [exercise_base] is the key of the exercise base.
    [license_author] is nullable.

    Modelled from the spec: [status], [license] and [license_author] come
    from the mixins [AbstractSubmissionModel] and [AbstractLicenseModel];
    image.py does not declare them. *)
Record ExerciseImage := {
  id : option nat;
  uuid : N;
  exercise_base : nat;
  image : string;
  is_main : bool;
  style : Style;
  status : Status;
  license : nat;
  license_author : option string;
}.

Definition with_id (v : option nat) (r : ExerciseImage) : ExerciseImage :=
  {| id := v; uuid := uuid r; exercise_base := exercise_base r;
     image := image r; is_main := is_main r; style := style r;
     status := status r; license := license r;
     license_author := license_author r |}.

Definition with_is_main (v : bool) (r : ExerciseImage) : ExerciseImage :=
  {| id := id r; uuid := uuid r; exercise_base := exercise_base r;
     image := image r; is_main := v; style := style r;
     status := status r; license := license r;
     license_author := license_author r |}.

Definition with_status (v : Status) (r : ExerciseImage) : ExerciseImage :=
  {| id := id r; uuid := uuid r; exercise_base := exercise_base r;
     image := image r; is_main := is_main r; style := style r;
     status := v; license := license r;
     license_author := license_author r |}.

Definition with_license_author (v : option string) (r : ExerciseImage)
  : ExerciseImage :=
  {| id := id r; uuid := uuid r; exercise_base := exercise_base r;
     image := image r; is_main := is_main r; style := style r;
     status := status r; license := license r;
     license_author := v |}.

(** The requesting user and the request, as far as [set_author] reads them. *)
Record User := {
  username : string;
  has_perm : string → bool;
}.

Record Request := {
  user : User;
  get_host : string;
}.

(** ** The world the hooks act on *)

(** A write the model sends to the store. *)
Inductive Write :=
  | BulkUpdate (base : nat) (main : bool)
  | Persist (pk : nat)
  | Remove (pk : nat).

Record Mail := { subject : string; message : string }.

Record World := {
  images : gmap nat ExerciseImage;
  languages : list nat;
  cache_calls : list (string * nat);
  writes : list Write;
  mail_attempts : list Mail;
  mail_transport_up : bool;
}.

Definition with_images (t : gmap nat ExerciseImage) (w : World) : World :=
  {| images := t; languages := languages w; cache_calls := cache_calls w;
     writes := writes w; mail_attempts := mail_attempts w;
     mail_transport_up := mail_transport_up w |}.

Definition log_cache_call (c : string * nat) (w : World) : World :=
  {| images := images w; languages := languages w;
     cache_calls := cache_calls w ++ [c];
     writes := writes w; mail_attempts := mail_attempts w;
     mail_transport_up := mail_transport_up w |}.

Definition log_write (x : Write) (w : World) : World :=
  {| images := images w; languages := languages w;
     cache_calls := cache_calls w;
     writes := writes w ++ [x]; mail_attempts := mail_attempts w;
     mail_transport_up := mail_transport_up w |}.

Definition log_mail (m : Mail) (w : World) : World :=
  {| images := images w; languages := languages w;
     cache_calls := cache_calls w;
     writes := writes w; mail_attempts := mail_attempts w ++ [m];
     mail_transport_up := mail_transport_up w |}.

(** ** State and exceptions *)

Inductive Exn := ValueError | IndexError | AttributeError | SMTPException.

Inductive Result (A : Type) :=
  | Ok (a : A)
  | Raise (e : Exn).
Arguments Ok {A} a.
Arguments Raise {A} e.

(** A computation reads and changes the world and returns or raises; what
    it changed before raising stays changed. *)
Definition M (A : Type) : Type := World → Result A * World.

#[global] Instance M_ret : MRet M := λ A a w, (Ok a, w).
#[global] Instance M_bind : MBind M := λ A B f c w,
  match c w with
  | (Ok a, w') => f a w'
  | (Raise e, w') => (Raise e, w')
  end.

Definition raise {A} (e : Exn) : M A := λ w, (Raise e, w).
Definition get : M World := λ w, (Ok w, w).
Definition modify (f : World → World) : M unit := λ w, (Ok (), f w).

(** [for x in xs: body(x)] *)
Fixpoint for_each {A} (xs : list A) (body : A → M unit) : M unit :=
  match xs with
  | [] => mret ()
  | x :: xs' => body x ;; for_each xs' body
  end.

(** ** The store: query sets over the image table *)

Module QuerySet.

(** A query set is the sub-table of the rows it selects. *)
Definition filter_exercise_base (b : nat) (q : gmap nat ExerciseImage)
  : gmap nat ExerciseImage :=
  filter (λ kv, exercise_base kv.2 = b) q.

Definition filter_is_main (m : bool) (q : gmap nat ExerciseImage)
  : gmap nat ExerciseImage :=
  filter (λ kv, is_main kv.2 = m) q.

Definition filter_status (s : Status) (q : gmap nat ExerciseImage)
  : gmap nat ExerciseImage :=
  filter (λ kv, status kv.2 = s) q.

(** [q.count()] *)
Definition count (q : gmap nat ExerciseImage) : nat := size q.

(** [Meta.ordering = ['-is_main', 'id']]: main images first, then by
    ascending primary key. *)
Definition ordering (x y : nat * ExerciseImage) : Prop :=
  match is_main x.2, is_main y.2 with
  | true, false => True
  | false, true => False
  | _, _ => x.1 ≤ y.1
  end.

#[global] Instance ordering_dec : RelDecision ordering.
Proof.
  intros x y. unfold ordering.
  destruct (is_main x.2), (is_main y.2); apply _.
Defined.

(** The rows of a query set in the default order, as instances. *)
Definition ordered (q : gmap nat ExerciseImage) : list ExerciseImage :=
  (λ kv, with_id (Some kv.1) kv.2) <$> merge_sort ordering (map_to_list q).

(** [q[0]] *)
Definition first (q : gmap nat ExerciseImage) : M ExerciseImage :=
  match ordered q with
  | r :: _ => mret r
  | [] => raise IndexError
  end.

(** [q.update(is_main=v)]: one statement that rewrites the selected rows of
    the table. *)
Definition update_is_main (b : nat) (v : bool) : M unit :=
  modify (λ w,
    log_write (BulkUpdate b v)
      (with_images
         ((with_is_main v <$> filter_exercise_base b (images w)) ∪ images w)
         w)).

End QuerySet.

(** Modelled from the spec: [SubmissionManager.accepted()] of
    wger/utils/managers.py, the moderation queue's selection of the
    submissions whose status is accepted. *)
Definition accepted (q : gmap nat ExerciseImage) : gmap nat ExerciseImage :=
  QuerySet.filter_status STATUS_ACCEPTED q.

(** [ExerciseImage.objects]: every row of the table. *)
Definition objects : M (gmap nat ExerciseImage) := λ w, (Ok (images w), w).

(** [Language.objects.all()], as the list of the languages' ids. *)
Definition Language_objects_all : M (list nat) := λ w, (Ok (languages w), w).

(** The key the store assigns to a new row: one above the largest key in
    use, hence not in use.  (A store's sequence would not hand out again the
    key of a deleted row; the properties only use that the key is not in
    use.) *)
Definition next_pk (t : gmap nat ExerciseImage) : nat :=
  S (max_list (fst <$> map_to_list t)).

(** [models.Model.save], for a write the store accepts: a record without
    key is inserted under a new key, a record with a key replaces the row of
    that key or is inserted under it.  The instance knows its key
    afterwards.  A write the store refuses (a violated constraint raises
    from [super().save()], after the bulk update and the loop over the
    languages have run) is outside the model: what is proved of [save]
    describes the calls that return. *)
Definition super_save (self : ExerciseImage) : M ExerciseImage := λ w,
  let pk := match id self with
            | Some k => k
            | None => next_pk (images w)
            end in
  let self := with_id (Some pk) self in
  (Ok self, log_write (Persist pk) (with_images (<[pk := self]> (images w)) w)).

(** [models.Model.delete]: refuses a record without key, removes the row and
    forgets the key on the instance. *)
Definition super_delete (self : ExerciseImage) : M ExerciseImage := λ w,
  match id self with
  | None => (Raise ValueError, w)
  | Some pk =>
      (Ok (with_id None self),
       log_write (Remove pk) (with_images (delete pk (images w)) w))
  end.

(** Modelled from the spec: [delete_template_fragment_cache] of
    wger/utils/cache.py, the cache interface
    [invalidate(fragmentName, localeId)]; the call is recorded. *)
Definition delete_template_fragment_cache (fragment : string) (language : nat)
  : M unit :=
  modify (log_cache_call (fragment, language)).

(** [django.core.mail.mail_admins]: hands one mail to the transport; a
    transport failure is raised unless [fail_silently]. *)
Definition mail_admins (subject message : string) (fail_silently : bool)
  : M unit := λ w,
  let w' := log_mail {| subject := subject; message := message |} w in
  if mail_transport_up w then (Ok (), w')
  else if fail_silently then (Ok (), w')
  else (Raise SMTPException, w').

(** [gettext_lazy]: the message catalogs are outside the model, a message
    stands for itself. *)
Definition gettext (msgid : string) : string := msgid.

(** ** image.py *)

(** Python truth of an integer and of a nullable string. *)
Definition truthy (n : nat) : bool := negb (n =? 0).

Definition truthy_str (s : option string) : bool :=
  match s with
  | None => false
  | Some s => negb (bool_decide (s = ""))
  end.

(** Returns the upload target for exercise images *)
Definition exercise_image_upload_dir (instance : ExerciseImage)
    (filename : string) : option string :=
  let ext := PathLib.suffix filename in
  PyStr.format "exercise-images/{0}/{1}{2}"
    [pretty (exercise_base instance); uuid_str (uuid instance); ext].

(** Reset all cached infos: the loop both hooks run. *)
Definition reset_cached_infos : M unit :=
  all ← Language_objects_all;
  for_each all (λ language,
    delete_template_fragment_cache "muscle-overview" language;;
    delete_template_fragment_cache "exercise-overview" language;;
    delete_template_fragment_cache "exercise-overview-mobile" language;;
    delete_template_fragment_cache "equipment-overview" language).

(** [ExerciseImage.save]: only one image can be marked as main picture at a
    time.  Returns the instance as the hook leaves it. *)
Definition save (self : ExerciseImage) : M ExerciseImage :=
  self ←
    (if is_main self then
       QuerySet.update_is_main (exercise_base self) false;;
       mret (with_is_main true self)
     else
       all ← objects;
       if bool_decide
            (QuerySet.count
               (QuerySet.filter_exercise_base (exercise_base self)
                  (accepted all)) = 0)
          || negb (truthy
               (QuerySet.count
                  (QuerySet.filter_is_main true
                     (QuerySet.filter_exercise_base (exercise_base self)
                        (accepted all)))))
       then mret (with_is_main true self)
       else mret self);
  reset_cached_infos;;
  super_save self.

(** [ExerciseImage.delete] *)
Definition delete (self : ExerciseImage) : M unit :=
  self ← super_delete self;
  reset_cached_infos;;
  (* Make sure there is always a main image *)
  all ← objects;
  if negb (truthy
       (QuerySet.count
          (QuerySet.filter_is_main true
             (QuerySet.filter_exercise_base (exercise_base self)
                (accepted all)))))
     && truthy
          (QuerySet.count
             (QuerySet.filter_is_main false
                (QuerySet.filter_exercise_base (exercise_base self)
                   (accepted all))))
  then
    image ← QuerySet.first
               (QuerySet.filter_is_main false
                  (QuerySet.filter_exercise_base (exercise_base self)
                     (accepted all)));
    save (with_is_main true image);;
    mret ()
  else mret ().

(** Image has no owner information *)
Definition get_owner_object (self : ExerciseImage) : bool := false.

Definition dquote : string := String (ascii_of_nat 34) EmptyString.

(** [self.<attr>] for a name that is no attribute of the instance: Python
    raises [AttributeError].  The class declares [uuid], [exercise_base],
    [image], [is_main] and [style] and takes [status], [license] and
    [license_author] from its mixins; it has no [name] and no [exercise]. *)
Definition missing_attribute (self : ExerciseImage) (attr : string)
  : M string :=
  raise AttributeError.

Definition lift_format (r : option string) : M string :=
  match r with
  | Some s => mret s
  | None => raise ValueError
  end.

(** [ExerciseImage.set_author]: set author and status.  Returns the instance
    as the method leaves it when it returns; when it raises, the caller's
    instance keeps the author assigned before the raise, which the model
    does not track. *)
Definition set_author (self : ExerciseImage) (request : Request)
  : M ExerciseImage :=
  if has_perm (user request) "exercises.add_exerciseimage" then
    let self := with_status STATUS_ACCEPTED self in
    if negb (truthy_str (license_author self)) then
      match PyStr.split ":"%char (get_host request) with
      | domain :: _ => mret (with_license_author (Some domain) self)
      | [] => raise IndexError
      end
    else mret self
  else
    let self :=
      if negb (truthy_str (license_author self))
      then with_license_author (Some (username (user request))) self
      else self in
    let subject := gettext "New user submitted image" in
    name ← missing_attribute self "name";
    exercise ← missing_attribute self "exercise";
    message ← lift_format
      (PyStr.format
         (gettext ("The user {0} submitted a new image " +:+ dquote +:+
                   "{1}" +:+ dquote +:+ " for exercise {2}."))
         [username (user request); name; exercise]);
    mail_admins subject message true;;
    mret self.

(** ** Notions the properties are stated with *)

(** The accepted images of a base, and among them those flagged main and
    those not flagged. *)
Definition accepted_of (b : nat) (t : gmap nat ExerciseImage)
  : gmap nat ExerciseImage :=
  QuerySet.filter_exercise_base b (accepted t).

Definition accepted_main_of (b : nat) (t : gmap nat ExerciseImage)
  : gmap nat ExerciseImage :=
  QuerySet.filter_is_main true (accepted_of b t).

Definition accepted_other_of (b : nat) (t : gmap nat ExerciseImage)
  : gmap nat ExerciseImage :=
  QuerySet.filter_is_main false (accepted_of b t).

(** The main-image invariant of a base: at most one of its accepted images
    is flagged main, and exactly one is as soon as it has an accepted
    image. *)
Definition at_most_one_main (b : nat) (w : World) : Prop :=
  QuerySet.count (accepted_main_of b (images w)) ≤ 1.

Definition main_image_invariant (b : nat) (w : World) : Prop :=
  at_most_one_main b w
  ∧ (0 < QuerySet.count (accepted_of b (images w))
     → QuerySet.count (accepted_main_of b (images w)) = 1).

#[global] Instance main_image_invariant_dec b w :
  Decision (main_image_invariant b w).
Proof. unfold main_image_invariant, at_most_one_main. apply _. Defined.

(** The invalidations of one pass of the loop over the languages [all]. *)
Definition overview_calls (all : list nat) : list (string * nat) :=
  flat_map (λ language,
    [("muscle-overview", language); ("exercise-overview", language);
     ("exercise-overview-mobile", language);
     ("equipment-overview", language)]) all.

Definition log_cache_calls (cs : list (string * nat)) (w : World) : World :=
  {| images := images w; languages := languages w;
     cache_calls := cache_calls w ++ cs;
     writes := writes w; mail_attempts := mail_attempts w;
     mail_transport_up := mail_transport_up w |}.

(** The test of the second branch of [save]. *)
Definition no_accepted_main (b : nat) (t : gmap nat ExerciseImage) : bool :=
  bool_decide (QuerySet.count (accepted_of b t) = 0)
  || negb (truthy (QuerySet.count (accepted_main_of b t))).

(** The table after the bulk update of [save]. *)
Definition cleared (b : nat) (t : gmap nat ExerciseImage)
  : gmap nat ExerciseImage :=
  (with_is_main false <$> QuerySet.filter_exercise_base b t) ∪ t.

(** The world in which a hook reaches [super().save()]. *)
Definition before_super_save (self : ExerciseImage) (w : World) : World :=
  log_cache_calls (overview_calls (languages w))
    (if is_main self
     then log_write (BulkUpdate (exercise_base self) false)
            (with_images (cleared (exercise_base self) (images w)) w)
     else w).

(** The flag [save] persists. *)
Definition saved_flag (self : ExerciseImage) (w : World) : bool :=
  is_main self || no_accepted_main (exercise_base self) (images w).

(** The world in which [delete] reaches its repair step. *)
Definition before_repair (pk : nat) (w : World) : World :=
  log_cache_calls (overview_calls (languages w))
    (log_write (Remove pk) (with_images (base.delete pk (images w)) w)).

(** The test of the repair step of [delete]. *)
Definition needs_repair (b : nat) (t : gmap nat ExerciseImage) : bool :=
  negb (truthy (QuerySet.count (accepted_main_of b t)))
  && truthy (QuerySet.count (accepted_other_of b t)).

(** The key under which [save] persists the record, the record it returns
    and the world it leaves. *)
Definition saved_pk (self : ExerciseImage) (w : World) : nat :=
  match id self with
  | Some k => k
  | None => next_pk (images (before_super_save self w))
  end.

Definition saved (self : ExerciseImage) (w : World) : ExerciseImage :=
  with_id (Some (saved_pk self w)) (with_is_main (saved_flag self w) self).

Definition after_save (self : ExerciseImage) (w : World) : World :=
  log_write (Persist (saved_pk self w))
    (with_images
       (<[saved_pk self w := saved self w]> (images (before_super_save self w)))
       (before_super_save self w)).

(** What the bulk update of [save] does to a stored row. *)
Definition cleared_row (self r : ExerciseImage) : ExerciseImage :=
  if is_main self && bool_decide (exercise_base r = exercise_base self)
  then with_is_main false r else r.

(** The record being saved is the stored image that currently is the
    accepted main image of the base it is saved for. *)
Definition is_stored_accepted_main (self : ExerciseImage) (w : World) : Prop :=
  match id self with
  | Some k => is_Some (accepted_main_of (exercise_base self) (images w) !! k)
  | None => False
  end.

#[global] Instance is_stored_accepted_main_dec self w :
  Decision (is_stored_accepted_main self w).
Proof. unfold is_stored_accepted_main. destruct (id self); apply _. Defined.

(** Sample data for the closed instances below. *)
Definition sample_image (pk : option nat) (b : nat) (m : bool) (s : Status)
  : ExerciseImage :=
  {| id := pk; uuid := 0x12345678123456781234567812345678%N;
     exercise_base := b; image := "squat.png"; is_main := m; style := PHOTO;
     status := s; license := 2; license_author := None |}.

Definition sample_world (t : gmap nat ExerciseImage) : World :=
  {| images := t; languages := [1; 2]; cache_calls := []; writes := [];
     mail_attempts := []; mail_transport_up := false |}.

Definition sample_user (trusted : bool) : User :=
  {| username := "alice"; has_perm := λ _, trusted |}.

Definition sample_request (trusted : bool) : Request :=
  {| user := sample_user trusted; get_host := "wger.de:8000" |}.

(** A table with one accepted main image of base 7. *)
Definition one_main : gmap nat ExerciseImage :=
  {[ 1 := sample_image (Some 1) 7 true STATUS_ACCEPTED ]}.

(** A table with one accepted main image of base 7 and two accepted main
    images of base 8. *)
Definition two_mains_elsewhere : gmap nat ExerciseImage :=
  <[ 3 := sample_image (Some 3) 8 true STATUS_ACCEPTED ]>
    (<[ 2 := sample_image (Some 2) 8 true STATUS_ACCEPTED ]> one_main).

(** A table with three accepted images of base 7, the first one main. *)
Definition three_images : gmap nat ExerciseImage :=
  <[ 3 := sample_image (Some 3) 7 false STATUS_ACCEPTED ]>
    (<[ 2 := sample_image (Some 2) 7 false STATUS_ACCEPTED ]> one_main).

(** ** Runs of the hooks *)

(** One call of a hook, on any record: what it does to the world, whether
    it returns or raises. *)
Inductive hook_step : World → World → Prop :=
  | step_save (self : ExerciseImage) (w : World) :
      hook_step w (save self w).2
  | step_delete (self : ExerciseImage) (w : World) :
      hook_step w (delete self w).2.

(** The record is new or is saved for the base its stored row has. *)
Definition keeps_base (self : ExerciseImage) (w : World) : Prop :=
  match id self with
  | Some k =>
      ∀ r, images w !! k = Some r → exercise_base r = exercise_base self
  | None => True
  end.

(** The record does not carry the flag without being accepted, and is not
    the accepted main image saved with the flag cleared. *)
Definition keeps_main (self : ExerciseImage) (w : World) : Prop :=
  (is_main self = true ∧ status self = STATUS_ACCEPTED)
  ∨ (is_main self = false ∧ ¬ is_stored_accepted_main self w).

(** One call of a hook as the views make it: a save of a record that
    [keeps_base] and [keeps_main], or the delete of a row as it is stored. *)
Inductive guarded_step : World → World → Prop :=
  | guarded_save (self : ExerciseImage) (w : World) :
      keeps_base self w → keeps_main self w →
      guarded_step w (save self w).2
  | guarded_delete (pk : nat) (r : ExerciseImage) (w : World) :
      images w !! pk = Some r →
      guarded_step w (delete (with_id (Some pk) r) w).2.

(** The 32 hexadecimal digits of the text form of a uuid: the text without
    its four dashes. *)
Definition uuid_hex (s : string) : string :=
  PyStr.take 8 s +:+ PyStr.take 4 (PyStr.drop 9 s) +:+
  PyStr.take 4 (PyStr.drop 14 s) +:+ PyStr.take 4 (PyStr.drop 19 s) +:+
  PyStr.drop 24 s.

(** * Properties *)

(** ** The string helpers on examples *)

Example uuid_str_ex :
  uuid_str 0x12345678123456781234567812345678%N
  = "12345678-1234-5678-1234-567812345678".
Proof. vm_compute. reflexivity. Qed.

Example suffix_ex1 : PathLib.suffix "a/b.tar.gz" = ".gz".
Proof. vm_compute. reflexivity. Qed.
Example suffix_ex2 : PathLib.suffix ".bashrc" = "".
Proof. vm_compute. reflexivity. Qed.
Example suffix_ex3 : PathLib.suffix "photo." = "".
Proof. vm_compute. reflexivity. Qed.
Example suffix_ex4 : PathLib.suffix "x.d/photo" = "".
Proof. vm_compute. reflexivity. Qed.
Example format_ex : PyStr.format "a{0}/{1}{{x}}" ["p"; "q"] = Some "ap/q{x}".
Proof. vm_compute. reflexivity. Qed.
Example split_ex : PyStr.split ":"%char "example.com:8000" = ["example.com"; "8000"].
Proof. vm_compute. reflexivity. Qed.

(** ** Counting the rows of a finite map *)

Section MapSize.
Context {A : Type}.
Implicit Types m : gmap nat A.

Lemma size_le_1_unique m :
  size m ≤ 1 ↔ ∀ i j x y, m !! i = Some x → m !! j = Some y → i = j.
Proof.
  split.
  - intros Hle i j x y Hi Hj.
    destruct (decide (i = j)) as [|Hne]; [done|].
    pose proof (map_size_delete_Some i m (mk_is_Some _ _ Hi)) as Hs.
    assert (size (base.delete i m) ≠ 0); [|lia].
    apply map_size_non_empty_iff. intros He.
    assert (base.delete i m !! j = Some y) as Hd by by rewrite lookup_delete_ne.
    rewrite He, lookup_empty in Hd. done.
  - intros Hu. destruct (map_choose_or_empty m) as [(i & x & Hi)| ->].
    + assert (m = {[ i := x ]}) as ->; [|by rewrite map_size_singleton].
      apply map_eq. intros j. destruct (decide (j = i)) as [->|Hne].
      * by rewrite lookup_singleton_eq.
      * rewrite lookup_singleton_ne by done.
        destruct (m !! j) as [y|] eqn:Hj; [|done].
        by destruct Hne; apply (Hu j i y x).
    + rewrite map_size_empty. lia.
Qed.

Lemma size_0_none m : size m = 0 ↔ ∀ i x, m !! i = Some x → False.
Proof.
  rewrite map_size_empty_iff. split.
  - intros -> i x. by rewrite lookup_empty.
  - intros Hn. apply map_eq. intros i. rewrite lookup_empty.
    destruct (m !! i) eqn:Hi; [by destruct (Hn i a)|done].
Qed.

Lemma size_1_unique m :
  size m = 1 ↔ ∃ i x, m !! i = Some x ∧ ∀ j y, m !! j = Some y → j = i.
Proof.
  split.
  - intros H1. destruct (map_choose_or_empty m) as [(i & x & Hi)| ->].
    + exists i, x. split; [done|]. intros j y Hj.
      apply (proj1 (size_le_1_unique m)) with y x; [lia|done..].
    + by rewrite map_size_empty in H1.
  - intros (i & x & Hi & Hu).
    assert (size m ≤ 1).
    { apply size_le_1_unique. intros j k y z Hj Hk.
      by rewrite (Hu j y), (Hu k z). }
    assert (size m ≠ 0); [|lia].
    rewrite size_0_none. intros Hn. by apply (Hn i x).
Qed.

Lemma size_pos_some m : 0 < size m ↔ ∃ i x, m !! i = Some x.
Proof.
  split.
  - intros Hp. destruct (map_choose_or_empty m) as [(i & x & Hi)| ->].
    + by exists i, x.
    + rewrite map_size_empty in Hp. lia.
  - intros (i & x & Hi). assert (size m ≠ 0); [|lia].
    rewrite size_0_none. intros Hn. by apply (Hn i x).
Qed.
End MapSize.

(** ** The selections the hooks count *)

Lemma lookup_filter_exercise_base b t k v :
  QuerySet.filter_exercise_base b t !! k = Some v
  ↔ t !! k = Some v ∧ exercise_base v = b.
Proof. unfold QuerySet.filter_exercise_base. by rewrite map_lookup_filter_Some. Qed.

Lemma lookup_accepted_of b t k v :
  accepted_of b t !! k = Some v
  ↔ t !! k = Some v ∧ status v = STATUS_ACCEPTED ∧ exercise_base v = b.
Proof.
  unfold accepted_of, accepted, QuerySet.filter_status.
  rewrite lookup_filter_exercise_base, map_lookup_filter_Some. simpl. tauto.
Qed.

Lemma lookup_accepted_flag_of m b t k v :
  QuerySet.filter_is_main m (accepted_of b t) !! k = Some v
  ↔ t !! k = Some v ∧ status v = STATUS_ACCEPTED ∧ exercise_base v = b
    ∧ is_main v = m.
Proof.
  unfold QuerySet.filter_is_main.
  rewrite map_lookup_filter_Some, lookup_accepted_of. simpl. tauto.
Qed.

Lemma lookup_accepted_main_of b t k v :
  accepted_main_of b t !! k = Some v
  ↔ t !! k = Some v ∧ status v = STATUS_ACCEPTED ∧ exercise_base v = b
    ∧ is_main v = true.
Proof. apply lookup_accepted_flag_of. Qed.

Lemma lookup_accepted_other_of b t k v :
  accepted_other_of b t !! k = Some v
  ↔ t !! k = Some v ∧ status v = STATUS_ACCEPTED ∧ exercise_base v = b
    ∧ is_main v = false.
Proof. apply lookup_accepted_flag_of. Qed.

(** ** The store primitives *)

Lemma next_pk_fresh (t : gmap nat ExerciseImage) : t !! next_pk t = None.
Proof.
  destruct (t !! next_pk t) as [v|] eqn:Hk; [|done].
  assert (next_pk t ∈ (map_to_list t).*1) as Hin.
  { apply list_elem_of_fmap. exists (next_pk t, v). split; [done|].
    by apply elem_of_map_to_list. }
  apply max_list_elem_of_le in Hin. unfold next_pk in Hin at 1. lia.
Qed.

(** The table after [filter(exercise_base=b).update(is_main=False)]. *)
Lemma lookup_bulk_update b v (t : gmap nat ExerciseImage) k :
  ((with_is_main v <$> QuerySet.filter_exercise_base b t) ∪ t) !! k
  = (λ r, if decide (exercise_base r = b) then with_is_main v r else r)
      <$> t !! k.
Proof.
  rewrite lookup_union, lookup_fmap.
  destruct (t !! k) as [r|] eqn:Hk; simpl.
  - destruct (decide (exercise_base r = b)) as [Hb|Hb].
    + rewrite (proj2 (lookup_filter_exercise_base b t k r)) by done. done.
    + destruct (QuerySet.filter_exercise_base b t !! k) as [r'|] eqn:Hf.
      * apply lookup_filter_exercise_base in Hf as [Hf1 Hf2].
        rewrite Hk in Hf1. by simplify_eq.
      * done.
  - destruct (QuerySet.filter_exercise_base b t !! k) as [r'|] eqn:Hf.
    + apply lookup_filter_exercise_base in Hf as [Hf1 _]. by rewrite Hk in Hf1.
    + done.
Qed.

(** ** The hooks, step by step *)

Lemma for_each_overview_run (all : list nat) (w : World) :
  for_each all (λ language,
    delete_template_fragment_cache "muscle-overview" language;;
    delete_template_fragment_cache "exercise-overview" language;;
    delete_template_fragment_cache "exercise-overview-mobile" language;;
    delete_template_fragment_cache "equipment-overview" language) w
  = (Ok (), log_cache_calls (overview_calls all) w).
Proof.
  revert w. induction all as [|language all IH]; intros w.
  - destruct w. unfold log_cache_calls. simpl. by rewrite app_nil_r.
  - simpl. unfold mbind, M_bind at 1. simpl. rewrite IH.
    unfold log_cache_calls, log_cache_call. simpl.
    do 2 f_equal. by rewrite <- !app_assoc.
Qed.

Lemma reset_cached_infos_run (w : World) :
  reset_cached_infos w
  = (Ok (), log_cache_calls (overview_calls (languages w)) w).
Proof.
  unfold reset_cached_infos, mbind, M_bind at 1, Language_objects_all.
  apply for_each_overview_run.
Qed.

Lemma overview_calls_length (all : list nat) :
  length (overview_calls all) = 4 * length all.
Proof. induction all as [|l all IH]; simpl; [done|]. rewrite IH. lia. Qed.

Lemma truthy_false n : truthy n = false ↔ n = 0.
Proof. unfold truthy. destruct n; simpl; split; (done || lia). Qed.

Lemma truthy_true n : truthy n = true ↔ 0 < n.
Proof. unfold truthy. destruct n; simpl; split; (done || lia). Qed.

Lemma accepted_main_count_le b t :
  QuerySet.count (accepted_main_of b t) ≤ QuerySet.count (accepted_of b t).
Proof. apply map_subseteq_size, map_filter_subseteq. Qed.

Lemma no_accepted_main_spec b t :
  no_accepted_main b t = true ↔ QuerySet.count (accepted_main_of b t) = 0.
Proof.
  unfold no_accepted_main. pose proof (accepted_main_count_le b t).
  rewrite orb_true_iff, bool_decide_eq_true, negb_true_iff, truthy_false. lia.
Qed.

Lemma no_accepted_main_lookup b t :
  no_accepted_main b t = true
  ↔ ∀ k r, accepted_main_of b t !! k = Some r → False.
Proof. rewrite no_accepted_main_spec. apply size_0_none. Qed.

Lemma save_run (self : ExerciseImage) (w : World) :
  save self w
  = super_save (with_is_main (saved_flag self w) self)
      (before_super_save self w).
Proof.
  unfold save, saved_flag, before_super_save.
  destruct (is_main self) eqn:Hm; simpl.
  - unfold mbind, M_bind. simpl. by rewrite reset_cached_infos_run.
  - unfold mbind, M_bind, objects. simpl.
    fold (accepted_of (exercise_base self) (images w)).
    fold (accepted_main_of (exercise_base self) (images w)).
    fold (no_accepted_main (exercise_base self) (images w)).
    destruct (no_accepted_main _ _); simpl; rewrite reset_cached_infos_run.
    + done.
    + destruct self; simpl in *; by subst.
Qed.

Lemma delete_run (self : ExerciseImage) (w : World) (pk : nat) :
  id self = Some pk →
  delete self w
  = let w1 := before_repair pk w in
    if needs_repair (exercise_base self) (images w1) then
      (image ← QuerySet.first (accepted_other_of (exercise_base self) (images w1));
       save (with_is_main true image);; mret ()) w1
    else (Ok (), w1).
Proof.
  intros Hid. unfold delete, mbind, M_bind at 1, super_delete. rewrite Hid.
  unfold mbind, M_bind at 1. rewrite reset_cached_infos_run.
  unfold mbind, M_bind at 1, objects. simpl.
  fold (before_repair pk w).
  unfold needs_repair, accepted_other_of, accepted_main_of, accepted_of.
  by destruct (_ && _).
Qed.

Lemma delete_unsaved (self : ExerciseImage) (w : World) :
  id self = None → delete self w = (Raise ValueError, w).
Proof.
  intros Hid. unfold delete, mbind, M_bind at 1, super_delete. by rewrite Hid.
Qed.

Lemma save_eq (self : ExerciseImage) (w : World) :
  save self w = (Ok (saved self w), after_save self w).
Proof. rewrite save_run. reflexivity. Qed.

Lemma lookup_before_super_save self w k :
  images (before_super_save self w) !! k = cleared_row self <$> images w !! k.
Proof.
  unfold before_super_save, cleared_row. destruct (is_main self); simpl.
  - unfold cleared. rewrite lookup_bulk_update.
    destruct (images w !! k) as [r|]; simpl; [|done].
    by destruct (decide (exercise_base r = exercise_base self));
      [rewrite bool_decide_eq_true_2|rewrite bool_decide_eq_false_2].
  - by destruct (images w !! k).
Qed.

Lemma lookup_after_save self w k :
  images (after_save self w) !! k
  = if decide (k = saved_pk self w) then Some (saved self w)
    else cleared_row self <$> images w !! k.
Proof.
  unfold after_save. simpl. destruct (decide (k = saved_pk self w)) as [->|Hne].
  - apply lookup_insert_eq.
  - rewrite lookup_insert_ne by done. apply lookup_before_super_save.
Qed.

Lemma saved_pk_new self w :
  id self = None → images w !! saved_pk self w = None.
Proof.
  intros Hid. unfold saved_pk. rewrite Hid.
  pose proof (next_pk_fresh (images (before_super_save self w))) as Hf.
  rewrite lookup_before_super_save in Hf.
  by destruct (images w !! _).
Qed.

Lemma cleared_row_status self r : status (cleared_row self r) = status r.
Proof. unfold cleared_row. by destruct (_ && _). Qed.

Lemma cleared_row_exercise_base self r :
  exercise_base (cleared_row self r) = exercise_base r.
Proof. unfold cleared_row. by destruct (_ && _). Qed.

Lemma cleared_row_is_main_true self r :
  is_main (cleared_row self r) = true → is_main r = true.
Proof. unfold cleared_row. by destruct (_ && _). Qed.

Lemma cleared_row_same_base self r :
  is_main self = true → exercise_base r = exercise_base self →
  cleared_row self r = with_is_main false r.
Proof.
  intros Hm Hb. unfold cleared_row. by rewrite Hm, bool_decide_eq_true_2.
Qed.

Lemma cleared_row_other_base self r :
  exercise_base r ≠ exercise_base self → cleared_row self r = r.
Proof.
  intros Hb. unfold cleared_row.
  by rewrite bool_decide_eq_false_2, andb_false_r.
Qed.

Lemma cleared_row_not_main self r :
  is_main self = false → cleared_row self r = r.
Proof. intros Hm. unfold cleared_row. by rewrite Hm. Qed.

Lemma writes_after_save self w :
  writes (after_save self w)
  = writes w
    ++ (if is_main self then [BulkUpdate (exercise_base self) false] else [])
    ++ [Persist (saved_pk self w)].
Proof.
  unfold after_save, before_super_save. simpl.
  destruct (is_main self); simpl; [by rewrite <- app_assoc|done].
Qed.

Lemma cache_calls_after_save self w :
  cache_calls (after_save self w)
  = cache_calls w ++ overview_calls (languages w).
Proof. unfold after_save, before_super_save. simpl. by destruct (is_main self). Qed.

Lemma languages_after_save self w : languages (after_save self w) = languages w.
Proof. unfold after_save, before_super_save. simpl. by destruct (is_main self). Qed.

(** ** [save] *)

(** C4: a record saved with [is_main] set is persisted with the flag set,
    after one bulk update that clears the flag of every image of its
    exercise base: every other image of the base is left with the flag
    cleared and otherwise as it was (so a previously main image of the base
    is no longer main), and the images of the other bases are untouched. *)
Theorem save_main_clears_others (self : ExerciseImage) (w : World) :
  is_main self = true →
  ∃ pk self' w',
    save self w = (Ok self', w')
    ∧ id self' = Some pk
    ∧ is_main self' = true
    ∧ images w' !! pk = Some self'
    ∧ writes w'
      = writes w ++ [BulkUpdate (exercise_base self) false; Persist pk]
    ∧ (∀ k r, k ≠ pk → images w !! k = Some r →
         exercise_base r = exercise_base self →
         images w' !! k = Some (with_is_main false r))
    ∧ (∀ k r, k ≠ pk → images w' !! k = Some r →
         exercise_base r = exercise_base self → is_main r = false)
    ∧ (∀ k r, k ≠ pk → images w !! k = Some r →
         exercise_base r ≠ exercise_base self →
         images w' !! k = Some r).
Proof.
  intros Hm. exists (saved_pk self w), (saved self w), (after_save self w).
  split; [apply save_eq|]. split; [done|].
  split; [by unfold saved, saved_flag; rewrite Hm|].
  split; [by rewrite lookup_after_save, decide_True|].
  split; [by rewrite writes_after_save, Hm|].
  split; [|split].
  - intros k r Hk Hr Hb. rewrite lookup_after_save, decide_False, Hr by done.
    simpl. by rewrite cleared_row_same_base.
  - intros k r Hk Hr Hb. rewrite lookup_after_save, decide_False in Hr by done.
    destruct (images w !! k) as [r0|]; simplify_eq/=.
    rewrite cleared_row_exercise_base in Hb.
    by rewrite cleared_row_same_base.
  - intros k r Hk Hr Hb. rewrite lookup_after_save, decide_False, Hr by done.
    simpl. by rewrite cleared_row_other_base.
Qed.

Lemma no_images_no_accepted_main b (t : gmap nat ExerciseImage) :
  QuerySet.count (accepted_of b t) = 0 →
  QuerySet.count (accepted_main_of b t) = 0.
Proof. pose proof (accepted_main_count_le b t). lia. Qed.

Lemma no_images_no_accepted b (t : gmap nat ExerciseImage) :
  QuerySet.count (QuerySet.filter_exercise_base b t) = 0 →
  QuerySet.count (accepted_of b t) = 0.
Proof.
  unfold QuerySet.count. rewrite !size_0_none. intros Hn k r Hr.
  apply lookup_accepted_of in Hr as (Hr & _ & Hb).
  apply (Hn k r). by apply lookup_filter_exercise_base.
Qed.

(** C3: the first image of an exercise base is persisted as its main image,
    whatever flag was submitted: when the table holds no image of the
    record's base and the record is new (it has no key yet), [save] stores
    it under a new key with [is_main] set. *)
Theorem save_first_image_is_main (self : ExerciseImage) (w : World) :
  id self = None →
  QuerySet.count
    (QuerySet.filter_exercise_base (exercise_base self) (images w)) = 0 →
  ∃ pk self' w',
    save self w = (Ok self', w')
    ∧ images w !! pk = None
    ∧ self' = with_id (Some pk) (with_is_main true self)
    ∧ images w' !! pk = Some self'
    ∧ is_main self' = true.
Proof.
  intros Hid Hnone.
  exists (saved_pk self w), (saved self w), (after_save self w).
  assert (saved_flag self w = true) as Hflag.
  { unfold saved_flag. apply orb_true_iff. right.
    by apply no_accepted_main_spec, no_images_no_accepted_main,
      no_images_no_accepted. }
  split; [apply save_eq|]. split; [by apply saved_pk_new|].
  split; [by unfold saved; rewrite Hflag|].
  split; [by rewrite lookup_after_save, decide_True|].
  by unfold saved; rewrite Hflag.
Qed.

(** C10: the image [save] makes main need not be accepted.  A record saved
    with [is_main] cleared while its base has no accepted image is persisted
    with the flag set and with its own status, whatever that status is; and
    when no other image of the base was flagged, it is the only image of the
    base that is flagged afterwards. *)
Theorem save_promotes_unaccepted (self : ExerciseImage) (w : World) :
  is_main self = false →
  QuerySet.count (accepted_of (exercise_base self) (images w)) = 0 →
  ∃ pk self' w',
    save self w = (Ok self', w')
    ∧ images w' !! pk = Some self'
    ∧ is_main self' = true
    ∧ status self' = status self
    ∧ exercise_base self' = exercise_base self
    ∧ ((∀ k r, k ≠ pk → images w !! k = Some r →
          exercise_base r = exercise_base self → is_main r = false) →
       ∀ k r, images w' !! k = Some r →
         exercise_base r = exercise_base self → is_main r = true → k = pk).
Proof.
  intros Hm Hnone.
  exists (saved_pk self w), (saved self w), (after_save self w).
  assert (saved_flag self w = true) as Hflag.
  { unfold saved_flag. apply orb_true_iff. right.
    by apply no_accepted_main_spec, no_images_no_accepted_main. }
  split; [apply save_eq|].
  split; [by rewrite lookup_after_save, decide_True|].
  split; [by unfold saved; rewrite Hflag|].
  do 2 (split; [done|]).
  intros Hothers k r Hr Hb Hmain.
  destruct (decide (k = saved_pk self w)) as [|Hne]; [done|].
  rewrite lookup_after_save, decide_False in Hr by done.
  destruct (images w !! k) as [r0|] eqn:Hk; simplify_eq/=.
  rewrite cleared_row_not_main in * by done.
  by rewrite (Hothers k r0) in Hmain.
Qed.

Lemma lookup_accepted_main_after_save self w k r :
  accepted_main_of (exercise_base self) (images (after_save self w)) !! k
    = Some r
  ↔ (k = saved_pk self w ∧ r = saved self w
     ∧ status self = STATUS_ACCEPTED ∧ saved_flag self w = true)
    ∨ (k ≠ saved_pk self w ∧ is_main self = false
       ∧ accepted_main_of (exercise_base self) (images w) !! k = Some r).
Proof.
  rewrite !lookup_accepted_main_of, lookup_after_save.
  destruct (decide (k = saved_pk self w)) as [->|Hne].
  - split.
    + intros (Hr & Hs & _ & Hm). simplify_eq. by left.
    + intros [(_ & -> & Hs & Hm)|(Hne & _)]; done.
  - split.
    + intros (Hr & Hs & Hb & Hm). right.
      destruct (images w !! k) as [r0|] eqn:Hk; simplify_eq/=.
      rewrite cleared_row_exercise_base in Hb.
      destruct (is_main self) eqn:Hself.
      * by rewrite cleared_row_same_base in Hm.
      * by rewrite cleared_row_not_main in *.
    + intros [(Hk & _)|(_ & Hself & Hr & Hs & Hb & Hm)]; [done|].
      by rewrite Hr; simpl; rewrite cleared_row_not_main.
Qed.

Lemma lookup_accepted_after_save self w k r :
  accepted_of (exercise_base self) (images (after_save self w)) !! k = Some r
  → (k = saved_pk self w ∧ status self = STATUS_ACCEPTED)
    ∨ (k ≠ saved_pk self w
       ∧ is_Some (accepted_of (exercise_base self) (images w) !! k)).
Proof.
  rewrite lookup_accepted_of, lookup_after_save.
  destruct (decide (k = saved_pk self w)) as [->|Hne].
  - intros (Hr & Hs & _). simplify_eq. by left.
  - intros (Hr & Hs & Hb). right. split; [done|].
    destruct (images w !! k) as [r0|] eqn:Hk; simplify_eq/=.
    rewrite cleared_row_status in Hs. rewrite cleared_row_exercise_base in Hb.
    exists r0. by apply lookup_accepted_of.
Qed.

Lemma at_most_one_main_after_save self w :
  at_most_one_main (exercise_base self) w →
  at_most_one_main (exercise_base self) (after_save self w).
Proof.
  unfold at_most_one_main, QuerySet.count. rewrite !size_le_1_unique.
  intros Hpre i j x y Hi Hj.
  apply lookup_accepted_main_after_save in Hi, Hj.
  destruct Hi as [(-> & _ & _ & Hflag)|(Hi & Hself & Hx)],
           Hj as [(-> & _ & _ & Hflag2)|(Hj & Hself2 & Hy)]; try done.
  - unfold saved_flag in Hflag. rewrite Hself2 in Hflag.
    simpl in Hflag. rewrite no_accepted_main_lookup in Hflag.
    by destruct (Hflag j y).
  - unfold saved_flag in Hflag2. rewrite Hself in Hflag2.
    simpl in Hflag2. rewrite no_accepted_main_lookup in Hflag2.
    by destruct (Hflag2 i x).
  - by apply (Hpre i j x y).
Qed.

(** C1, as amended: [save] keeps "at most one accepted main image" for the
    base of the record, and it keeps the whole main-image invariant of that
    base when the record is accepted and saved with [is_main] set, or is
    saved with [is_main] cleared and is not the stored image that currently
    is the accepted main image of the base. *)
Theorem save_main_image_invariant (self : ExerciseImage) (w : World) :
  main_image_invariant (exercise_base self) w →
  ∃ self' w',
    save self w = (Ok self', w')
    ∧ at_most_one_main (exercise_base self) w'
    ∧ ((is_main self = true ∧ status self = STATUS_ACCEPTED)
       ∨ (is_main self = false ∧ ¬ is_stored_accepted_main self w)
       → main_image_invariant (exercise_base self) w').
Proof.
  intros [Hle Hex]. exists (saved self w), (after_save self w).
  split; [apply save_eq|].
  pose proof (at_most_one_main_after_save self w Hle) as Hle'.
  split; [done|]. intros Hcase. split; [done|]. intros Hpos.
  assert (∃ k r, accepted_main_of (exercise_base self)
                   (images (after_save self w)) !! k = Some r) as Hsome.
  { destruct Hcase as [[Hm Hs]|[Hm Hns]].
    - exists (saved_pk self w), (saved self w).
      apply lookup_accepted_main_after_save. left.
      by unfold saved_flag; rewrite Hm.
    - destruct (no_accepted_main (exercise_base self) (images w)) eqn:Hflag.
      + destruct (decide (status self = STATUS_ACCEPTED)) as [Hs|Hs].
        * exists (saved_pk self w), (saved self w).
          apply lookup_accepted_main_after_save. left.
          by unfold saved_flag; rewrite Hm, Hflag.
        * apply size_pos_some in Hpos as (k & r & Hr).
          apply lookup_accepted_after_save in Hr as [[_ ?]|[_ Hold]]; [done|].
          apply no_accepted_main_spec in Hflag.
          rewrite Hex in Hflag; [done|].
          apply size_pos_some. destruct Hold as [r0 Hr0]. by exists k, r0.
      + assert (0 < QuerySet.count
                      (accepted_main_of (exercise_base self) (images w))) as Hp.
        { destruct (QuerySet.count
                      (accepted_main_of (exercise_base self) (images w)))
            eqn:Hc; [|lia].
          apply no_accepted_main_spec in Hc. congruence. }
        apply size_pos_some in Hp as (k & r & Hr). exists k, r.
        apply lookup_accepted_main_after_save. right.
        split; [|done]. intros ->. apply Hns. unfold is_stored_accepted_main.
        destruct (id self) as [k|] eqn:Hid.
        * unfold saved_pk in Hr. rewrite Hid in Hr. by exists r.
        * apply lookup_accepted_main_of in Hr as [Hr _].
          by rewrite saved_pk_new in Hr. }
  apply size_pos_some in Hsome. unfold at_most_one_main, QuerySet.count in *.
  lia.
Qed.

(** C1 fails as stated.  In a table whose only image of base 7 is accepted
    and main, the invariant holds; it no longer holds after a pending image
    of that base is saved with [is_main] set, nor after the main image
    itself is saved again with [is_main] cleared: the accepted image is left
    without any accepted main image. *)
Lemma save_breaks_main_image_invariant :
  let w := sample_world {[ 1 := sample_image (Some 1) 7 true STATUS_ACCEPTED ]} in
  main_image_invariant 7 w
  ∧ ¬ main_image_invariant 7
        (save (sample_image None 7 true STATUS_PENDING) w).2
  ∧ ¬ main_image_invariant 7
        (save (sample_image (Some 1) 7 false STATUS_ACCEPTED) w).2.
Proof.
  split; [|split].
  - apply (bool_decide_eq_true_1 _). vm_compute. reflexivity.
  - apply (bool_decide_eq_false_1 _). vm_compute. reflexivity.
  - apply (bool_decide_eq_false_1 _). vm_compute. reflexivity.
Qed.

(** ** The default ordering and [q[0]] *)

#[global] Instance ordering_total : Total QuerySet.ordering.
Proof.
  intros x y. unfold QuerySet.ordering.
  destruct (is_main x.2), (is_main y.2); auto; lia.
Qed.

#[global] Instance ordering_transitive : Transitive QuerySet.ordering.
Proof.
  intros x y z. unfold QuerySet.ordering.
  destruct (is_main x.2), (is_main y.2), (is_main z.2); auto; try lia; done.
Qed.

Lemma first_spec (q : gmap nat ExerciseImage) :
  0 < QuerySet.count q →
  ∃ k r,
    q !! k = Some r
    ∧ QuerySet.first q = mret (with_id (Some k) r)
    ∧ ∀ j u, q !! j = Some u → QuerySet.ordering (k, r) (j, u).
Proof.
  intros Hpos. unfold QuerySet.first, QuerySet.ordered.
  pose proof (merge_sort_Permutation QuerySet.ordering (map_to_list q)) as Hperm.
  pose proof (StronglySorted_merge_sort QuerySet.ordering (map_to_list q))
    as Hsorted.
  destruct (merge_sort QuerySet.ordering (map_to_list q)) as [|[k r] l].
  - apply Permutation_nil_l in Hperm. symmetry in Hperm.
    apply map_to_list_empty_iff in Hperm. subst q.
    unfold QuerySet.count in Hpos. rewrite map_size_empty in Hpos. lia.
  - exists k, r. split; [|split; [done|]].
    + apply elem_of_map_to_list. rewrite <- Hperm. apply list_elem_of_here.
    + intros j u Hj. apply elem_of_map_to_list in Hj. rewrite <- Hperm in Hj.
      apply StronglySorted_cons in Hsorted as [Hall _].
      apply elem_of_cons in Hj as [Hj|Hj].
      * simplify_eq. by destruct (total QuerySet.ordering (k, r) (k, r)).
      * by apply (proj1 (Forall_forall _ _) Hall).
Qed.

(** ** [delete] *)

Lemma accepted_other_count_le b t :
  QuerySet.count (accepted_other_of b t) ≤ QuerySet.count (accepted_of b t).
Proof. apply map_subseteq_size, map_filter_subseteq. Qed.

Lemma accepted_other_pos b t :
  0 < QuerySet.count (accepted_of b t) →
  QuerySet.count (accepted_main_of b t) = 0 →
  0 < QuerySet.count (accepted_other_of b t).
Proof.
  unfold QuerySet.count. rewrite size_0_none, !size_pos_some.
  intros (k & r & Hr) Hnone. exists k, r.
  apply lookup_accepted_of in Hr as (Hr & Hs & Hb).
  apply lookup_accepted_other_of. repeat split; try done.
  destruct (is_main r) eqn:Hm; [|done].
  destruct (Hnone k r). by apply lookup_accepted_main_of.
Qed.

Lemma promoted_eq k r :
  with_id (Some k) (with_is_main true (with_is_main true (with_id (Some k) r)))
  = with_id (Some k) (with_is_main true r).
Proof. reflexivity. Qed.

(** C5: when the images that remain after a deletion include an accepted
    image of the record's base but no accepted main one, [delete] promotes
    exactly one of them: the accepted, not yet main image of the base that
    comes first in the default order (the one with the least key).  It is
    saved through [save], with the flag set; afterwards it is the only image
    of the base flagged main, and no other image of the table has been
    promoted. *)
Theorem delete_promotes_first_accepted
    (self : ExerciseImage) (w : World) (pk : nat) :
  id self = Some pk →
  0 < QuerySet.count
        (accepted_of (exercise_base self) (base.delete pk (images w))) →
  QuerySet.count
    (accepted_main_of (exercise_base self) (base.delete pk (images w))) = 0 →
  ∃ k r w',
    delete self w = (Ok (), w')
    ∧ accepted_other_of (exercise_base self) (base.delete pk (images w)) !! k
      = Some r
    ∧ (∀ j u,
         accepted_other_of (exercise_base self) (base.delete pk (images w)) !! j
           = Some u →
         QuerySet.ordering (k, r) (j, u) ∧ k ≤ j)
    ∧ save (with_is_main true (with_id (Some k) r)) (before_repair pk w)
      = (Ok (with_id (Some k) (with_is_main true r)), w')
    ∧ images w' !! k = Some (with_id (Some k) (with_is_main true r))
    ∧ (∀ j u, images w' !! j = Some u →
         exercise_base u = exercise_base self → is_main u = true → j = k)
    ∧ (∀ j u, j ≠ k → images w' !! j = Some u → is_main u = true →
         base.delete pk (images w) !! j = Some u)
    ∧ writes w'
      = writes w
        ++ [Remove pk; BulkUpdate (exercise_base self) false; Persist k].
Proof.
  intros Hid Hacc Hnomain. set (b := exercise_base self) in *.
  set (t1 := base.delete pk (images w)) in *.
  pose proof (accepted_other_pos b t1 Hacc Hnomain) as Hother.
  destruct (first_spec _ Hother) as (k & r & Hr & Hfirst & Hmin).
  pose proof Hr as Hr'. apply lookup_accepted_other_of in Hr' as (Ht1 & Hs & Hb & Hm).
  set (image := with_is_main true (with_id (Some k) r)).
  exists k, r, (after_save image (before_repair pk w)).
  assert (save image (before_repair pk w)
          = (Ok (with_id (Some k) (with_is_main true r)),
             after_save image (before_repair pk w))) as Hsave.
  { rewrite save_eq. reflexivity. }
  split.
  { rewrite (delete_run self w pk Hid). simpl. fold b t1.
    assert (needs_repair b t1 = true) as ->.
    { unfold needs_repair. rewrite Hnomain. simpl.
      by apply truthy_true. }
    unfold mbind, M_bind. rewrite Hfirst. simpl. fold image.
    by rewrite Hsave. }
  split; [done|]. split.
  { intros j u Hu. split; [by apply Hmin|].
    specialize (Hmin j u Hu). apply lookup_accepted_other_of in Hu as (_ & _ & _ & Hmu).
    unfold QuerySet.ordering in Hmin. simpl in Hmin. by rewrite Hm, Hmu in Hmin. }
  split; [done|].
  assert (∀ j, images (after_save image (before_repair pk w)) !! j
               = if decide (j = k) then Some (with_id (Some k) (with_is_main true r))
                 else cleared_row image <$> t1 !! j) as Hlook.
  { intros j. by rewrite lookup_after_save. }
  split; [by rewrite Hlook, decide_True|]. split; [|split].
  - intros j u Hu Hbu Hmu. destruct (decide (j = k)) as [|Hne]; [done|].
    rewrite Hlook, decide_False in Hu by done.
    destruct (t1 !! j) as [u0|]; simpl in Hu; [injection Hu as <-|done].
    rewrite cleared_row_exercise_base in Hbu.
    rewrite cleared_row_same_base in Hmu; [done..|by simpl; rewrite Hb].
  - intros j u Hne Hu Hmu. rewrite Hlook, decide_False in Hu by done.
    destruct (t1 !! j) as [u0|]; simpl in Hu; [injection Hu as <-|done].
    f_equal. destruct (decide (exercise_base u0 = b)) as [Hbu|Hbu].
    + rewrite cleared_row_same_base in Hmu; [done..|by simpl; rewrite Hb].
    + symmetry. apply cleared_row_other_base. by simpl; rewrite Hb.
  - rewrite writes_after_save. simpl. rewrite Hb. by rewrite <- app_assoc.
Qed.

(** C6: when no accepted image of the record's base remains after the
    deletion, [delete] repairs nothing: the row is removed, that is the only
    write sent to the store (no bulk update, no save), the loop over the
    languages ran once, and every other row is as it was.  In particular,
    deleting the only image of a base leaves the base without images. *)
Theorem delete_without_accepted_repairs_nothing
    (self : ExerciseImage) (w : World) (pk : nat) :
  id self = Some pk →
  QuerySet.count
    (accepted_of (exercise_base self) (base.delete pk (images w))) = 0 →
  ∃ w',
    delete self w = (Ok (), w')
    ∧ images w' = base.delete pk (images w)
    ∧ writes w' = writes w ++ [Remove pk]
    ∧ cache_calls w' = cache_calls w ++ overview_calls (languages w)
    ∧ (∀ k, k ≠ pk → images w' !! k = images w !! k)
    ∧ ((∀ k r, images w !! k = Some r →
          exercise_base r = exercise_base self → k = pk) →
       QuerySet.count
         (QuerySet.filter_exercise_base (exercise_base self) (images w')) = 0).
Proof.
  intros Hid Hnone. exists (before_repair pk w).
  split.
  { rewrite (delete_run self w pk Hid). simpl.
    assert (needs_repair (exercise_base self) (base.delete pk (images w))
            = false) as ->; [|done].
    unfold needs_repair. apply andb_false_iff. right. apply truthy_false.
    pose proof (accepted_other_count_le (exercise_base self)
                  (base.delete pk (images w))). lia. }
  do 3 (split; [done|]). split.
  - intros k Hk. simpl. by rewrite lookup_delete_ne.
  - intros Honly. simpl. unfold QuerySet.count. apply size_0_none.
    intros k r Hr. apply lookup_filter_exercise_base in Hr as [Hr Hb].
    destruct (decide (k = pk)) as [->|Hne].
    + by rewrite lookup_delete_eq in Hr.
    + rewrite lookup_delete_ne in Hr by done. by destruct Hne; apply (Honly k r).
Qed.

(** ** Cache invalidation *)

(** C8: every run of a hook invalidates the four overview fragments, in this
    order, once for each configured language and nothing else: four calls
    per language.  [save] does so on every call.  [delete] of a stored
    record does so after the row is removed; when it then promotes an
    image, the [save] of that image is a hook run of its own and adds its
    own pass. *)
Theorem hooks_invalidate_overviews (self : ExerciseImage) (w : World) :
  let pass :=
    flat_map (λ language,
      [("muscle-overview", language); ("exercise-overview", language);
       ("exercise-overview-mobile", language);
       ("equipment-overview", language)]) (languages w) in
  length pass = 4 * length (languages w)
  ∧ cache_calls (save self w).2 = cache_calls w ++ pass
  ∧ ∀ pk, id self = Some pk →
      ∃ w1,
        cache_calls w1 = cache_calls w ++ pass
        ∧ (delete self w = (Ok (), w1)
           ∨ ∃ image image' w',
               save image w1 = (Ok image', w')
               ∧ delete self w = (Ok (), w')
               ∧ cache_calls w' = cache_calls w1 ++ pass).
Proof.
  simpl. fold (overview_calls (languages w)).
  split; [apply overview_calls_length|].
  split; [by rewrite save_eq; apply cache_calls_after_save|].
  intros pk Hid. exists (before_repair pk w). split; [done|].
  rewrite (delete_run self w pk Hid). simpl.
  destruct (needs_repair _ _) eqn:Hrep; [right|by left].
  unfold needs_repair in Hrep. apply andb_true_iff in Hrep as [_ Hpos].
  apply truthy_true in Hpos.
  destruct (first_spec _ Hpos) as (k & r & _ & Hfirst & _).
  set (image := with_is_main true (with_id (Some k) r)).
  exists image, (saved image (before_repair pk w)),
    (after_save image (before_repair pk w)).
  split; [apply save_eq|]. split.
  - unfold mbind, M_bind. rewrite Hfirst. simpl. fold image.
    by rewrite save_eq.
  - by rewrite cache_calls_after_save.
Qed.

(** ** Python strings: what the properties need *)

Lemma append_nil (t : string) : "" +:+ t = t.
Proof. reflexivity. Qed.

Lemma append_cons a (s t : string) : String a s +:+ t = String a (s +:+ t).
Proof. reflexivity. Qed.

Lemma append_empty_r (s : string) : s +:+ "" = s.
Proof.
  induction s as [|a s IH]; [done|]. by rewrite append_cons, IH.
Qed.

Lemma length_append (s1 s2 : string) :
  String.length (s1 +:+ s2) = String.length s1 + String.length s2.
Proof.
  induction s1 as [|a s1 IH]; [done|]. rewrite append_cons. cbn. by rewrite IH.
Qed.

Lemma contains_append c (s1 s2 : string) :
  PyStr.contains c (s1 +:+ s2) = PyStr.contains c s1 || PyStr.contains c s2.
Proof.
  induction s1 as [|a s1 IH]; [done|]. rewrite append_cons. cbn.
  by rewrite IH, orb_assoc.
Qed.

Lemma drop_append (s1 s2 : string) :
  PyStr.drop (String.length s1) (s1 +:+ s2) = s2.
Proof.
  induction s1 as [|a s1 IH]; [by destruct s2|]. by rewrite append_cons.
Qed.

Lemma rfind_absent c (s : string) :
  PyStr.contains c s = false → PyStr.rfind c s = (-1)%Z.
Proof.
  induction s as [|a s IH]; cbn; [done|].
  intros [Ha Hs]%orb_false_iff. by rewrite (IH Hs), Ha.
Qed.

Lemma rfind_last c (s e : string) :
  PyStr.contains c e = false →
  PyStr.rfind c (s +:+ String c e) = Z.of_nat (String.length s).
Proof.
  intros He. induction s as [|a s IH]; rewrite ?append_nil, ?append_cons; cbn.
  - by rewrite (rfind_absent c e He), Ascii.eqb_refl.
  - rewrite IH. destruct (Z.leb_spec 0 (Z.of_nat (String.length s))); lia.
Qed.

(** The first part of a split holds no separator and is the whole string or
    what precedes its first separator. *)
Lemma split_head sep (s : string) :
  ∃ d ps,
    PyStr.split sep s = d :: ps
    ∧ PyStr.contains sep d = false
    ∧ ((ps = [] ∧ s = d) ∨ ∃ rest, s = d +:+ String sep rest).
Proof.
  induction s as [|a s (d & ps & Hsplit & Hd & Hs)]; cbn.
  - exists "", []. split; [done|]. split; [done|]. by left.
  - destruct (Ascii.eqb a sep) eqn:Ha.
    + apply Ascii.eqb_eq in Ha as ->. exists "", (PyStr.split sep s).
      split; [done|]. split; [done|]. right. by exists s.
    + rewrite Hsplit. exists (String a d), ps. cbn. rewrite Ha, Hd.
      split; [done|]. split; [done|].
      destruct Hs as [[-> ->]|[rest ->]]; [by left|right; by exists rest].
Qed.

Lemma split_absent sep (s : string) :
  PyStr.contains sep s = false → PyStr.split sep s = [s].
Proof.
  induction s as [|a s IH]; cbn; [done|].
  intros [Ha Hs]%orb_false_iff. by rewrite Ha, (IH Hs).
Qed.

Lemma split_parts_absent c sep (s : string) :
  PyStr.contains c s = false →
  Forall (λ p, PyStr.contains c p = false) (PyStr.split sep s).
Proof.
  induction s as [|a s IH]; cbn; [by repeat constructor|].
  intros [Ha Hs]%orb_false_iff. specialize (IH Hs).
  destruct (Ascii.eqb a sep); [by constructor|].
  destruct (PyStr.split sep s) as [|p ps].
  - repeat constructor. cbn. by rewrite Ha.
  - apply Forall_cons in IH as [Hp Hps]. constructor; [|done].
    cbn. by rewrite Ha, Hp.
Qed.

Lemma split_append sep (s1 s2 : string) :
  PyStr.split sep (s1 +:+ String sep s2)
  = PyStr.split sep s1 ++ PyStr.split sep s2.
Proof.
  induction s1 as [|a s1 IH]; rewrite ?append_nil, ?append_cons; cbn.
  - by rewrite Ascii.eqb_refl.
  - rewrite IH. destruct (Ascii.eqb a sep); [done|].
    by destruct (split_head sep s1) as (d & ps & -> & _).
Qed.

(** The name of a path is its last component. *)
Lemma name_plain (f : string) :
  PyStr.contains "/" f = false → f ≠ "" → f ≠ "." → PathLib.name f = f.
Proof.
  intros Hslash Hne Hdot. unfold PathLib.name, PathLib.parts.
  rewrite (split_absent _ _ Hslash). by rewrite filter_cons_True, filter_nil.
Qed.

Lemma name_in_directory (dir f : string) :
  PyStr.contains "/" f = false → f ≠ "" → f ≠ "." →
  PathLib.name (dir +:+ String "/" f) = f.
Proof.
  intros Hslash Hne Hdot. unfold PathLib.name, PathLib.parts.
  rewrite split_append, (split_absent _ _ Hslash), filter_app.
  rewrite filter_cons_True, filter_nil by done. by rewrite last_snoc.
Qed.

Lemma suffix_of_name (stem ext : string) :
  stem ≠ "" → ext ≠ "" → PyStr.contains "." ext = false →
  (let name := stem +:+ String "." ext in
   let i := PyStr.rfind "." name in
   if bool_decide (0 < i ∧ i < Z.of_nat (String.length name) - 1)%Z
   then PyStr.drop (Z.to_nat i) name
   else "") = String "." ext.
Proof.
  intros Hstem Hext Hdot. cbn zeta.
  rewrite (rfind_last _ _ _ Hdot), length_append. cbn.
  rewrite bool_decide_eq_true_2.
  - rewrite Nat2Z.id. apply drop_append.
  - destruct stem; [done|]. destruct ext; [done|]. cbn. lia.
Qed.

Lemma format_message (u n e : string) :
  PyStr.format
    (gettext ("The user {0} submitted a new image " +:+ dquote +:+
              "{1}" +:+ dquote +:+ " for exercise {2}."))
    [u; n; e]
  = Some ("The user " +:+ u +:+ " submitted a new image " +:+ dquote +:+
          n +:+ dquote +:+ " for exercise " +:+ e +:+ ".").
Proof. reflexivity. Qed.

Lemma format_upload_dir (b u ext : string) :
  PyStr.format "exercise-images/{0}/{1}{2}" [b; u; ext]
  = Some ("exercise-images/" +:+ b +:+ "/" +:+ u +:+ ext).
Proof.
  transitivity (Some ("exercise-images/" +:+ b +:+ "/" +:+ u +:+ ext +:+ ""));
    [reflexivity|by rewrite append_empty_r].
Qed.

(** ** [set_author] *)

(** C7: for a user who holds the permission to add exercise images,
    [set_author] returns the record accepted; an empty author is replaced
    by the host name of the request, that is by the request's host up to
    its first colon, and an author that is not empty is kept; the world is
    unchanged, so no mail is attempted. *)
Theorem set_author_trusted
    (self : ExerciseImage) (request : Request) (w : World) :
  has_perm (user request) "exercises.add_exerciseimage" = true →
  ∃ self' domain,
    set_author self request w = (Ok self', w)
    ∧ PyStr.contains ":" domain = false
    ∧ (get_host request = domain
       ∨ ∃ port, get_host request = domain +:+ String ":" port)
    ∧ status self' = STATUS_ACCEPTED
    ∧ license_author self'
      = (if truthy_str (license_author self) then license_author self
         else Some domain)
    ∧ self' = with_license_author (license_author self')
                (with_status STATUS_ACCEPTED self).
Proof.
  intros Hperm. unfold set_author. rewrite Hperm. simpl.
  destruct (split_head ":" (get_host request)) as (d & ps & Hsplit & Hd & Hhost).
  rewrite Hsplit.
  destruct (truthy_str (license_author self)); simpl.
  - exists (with_status STATUS_ACCEPTED self), d.
    split; [done|]. split; [done|].
    split; [destruct Hhost as [[_ ?]|?]; [by left|by right]|]. done.
  - exists (with_license_author (Some d) (with_status STATUS_ACCEPTED self)), d.
    split; [done|]. split; [done|].
    split; [destruct Hhost as [[_ ?]|?]; [by left|by right]|]. done.
Qed.

(** C2: what the code does for a user without the permission.  The claim
    asks for one mail and a normal return; [set_author] instead raises
    [AttributeError] when it reads [self.name] to build the body of the
    mail: [mail_admins] is never reached, no mail is handed to the
    transport and the world is as it was. *)
Theorem set_author_untrusted_raises
    (self : ExerciseImage) (request : Request) (w : World) :
  has_perm (user request) "exercises.add_exerciseimage" = false →
  set_author self request w = (Raise AttributeError, w)
  ∧ mail_attempts (set_author self request w).2 = mail_attempts w.
Proof.
  intros Hperm. unfold set_author. rewrite Hperm.
  by unfold mbind, M_bind, missing_attribute, raise.
Qed.

(** ** [exercise_image_upload_dir] *)

(** C9: the upload target is ["exercise-images/"], the key of the exercise
    base in decimal, a slash, the uuid in its text form and the suffix of
    the uploaded file name.  The suffix keeps the extension: for a file name
    [stem.ext], alone or behind a directory, it is [.ext], and it is empty
    for a file name without a dot. *)
Theorem upload_dir_path (instance : ExerciseImage) (filename : string) :
  exercise_image_upload_dir instance filename
  = Some ("exercise-images/" +:+ pretty (exercise_base instance) +:+ "/" +:+
          uuid_str (uuid instance) +:+ PathLib.suffix filename)
  ∧ (∀ stem ext,
       stem ≠ "" → ext ≠ "" →
       PyStr.contains "/" stem = false →
       PyStr.contains "/" ext = false →
       PyStr.contains "." ext = false →
       (filename = stem +:+ String "." ext
        ∨ ∃ dir, filename = dir +:+ String "/" (stem +:+ String "." ext)) →
       PathLib.suffix filename = String "." ext)
  ∧ (PyStr.contains "." filename = false → PathLib.suffix filename = "").
Proof.
  split; [apply format_upload_dir|]. split.
  - intros stem ext Hstem Hext Hslash1 Hslash2 Hdot Hname.
    assert (PyStr.contains "/" (stem +:+ String "." ext) = false) as Hslash.
    { rewrite contains_append. cbn. by rewrite Hslash1, Hslash2. }
    assert (stem +:+ String "." ext ≠ "" ∧ stem +:+ String "." ext ≠ ".")
      as [Hne1 Hne2].
    { destruct stem as [|a [|a' stem]]; [done|..]; by destruct ext. }
    unfold PathLib.suffix.
    destruct Hname as [->|[dir ->]].
    + rewrite (name_plain _ Hslash Hne1 Hne2). by apply suffix_of_name.
    + rewrite (name_in_directory _ _ Hslash Hne1 Hne2). by apply suffix_of_name.
  - intros Hdot. unfold PathLib.suffix.
    assert (PyStr.contains "." (PathLib.name filename) = false) as Hname.
    { unfold PathLib.name, PathLib.parts.
      pose proof (split_parts_absent "." "/" filename Hdot) as Hall.
      destruct (last _) as [p|] eqn:Hlast; [|done]. simpl.
      apply last_Some_elem_of, list_elem_of_filter in Hlast as [_ Hp].
      by apply (proj1 (Forall_forall _ _) Hall). }
    rewrite (rfind_absent _ _ Hname). by rewrite bool_decide_eq_false_2 by lia.
Qed.

(** ** Closed instances *)

(** Deleting the main image of [three_images]: image 2 is promoted, image 3
    is not, and the languages are looped over twice. *)
Example delete_three_images_ex :
  let w' := (delete (sample_image (Some 1) 7 true STATUS_ACCEPTED)
               (sample_world three_images)).2 in
  is_main <$> images w' !! 1 = None
  ∧ is_main <$> images w' !! 2 = Some true
  ∧ is_main <$> images w' !! 3 = Some false
  ∧ length (cache_calls w') = 16.
Proof. vm_compute. by repeat split. Qed.

(** Saving a pending image with the flag set in [one_main]: the accepted
    image loses the flag, the pending one carries it. *)
Example save_pending_main_ex :
  let w' := (save (sample_image None 7 true STATUS_PENDING)
               (sample_world one_main)).2 in
  (λ r, (status r, is_main r)) <$> images w' !! 1
    = Some (STATUS_ACCEPTED, false)
  ∧ (λ r, (status r, is_main r)) <$> images w' !! 2
    = Some (STATUS_PENDING, true).
Proof. vm_compute. by repeat split. Qed.

Ltac by_compute := apply (bool_decide_eq_true_1 _); vm_compute; reflexivity.

Lemma save_main_image_invariant_witness :
  main_image_invariant 7 (sample_world one_main)
  ∧ ∃ self' w',
      save (sample_image None 7 false STATUS_ACCEPTED) (sample_world one_main)
      = (Ok self', w')
      ∧ main_image_invariant 7 w'.
Proof.
  assert (main_image_invariant 7 (sample_world one_main)) as Hinv by by_compute.
  split; [exact Hinv|].
  destruct (save_main_image_invariant
              (sample_image None 7 false STATUS_ACCEPTED)
              (sample_world one_main) Hinv) as (self' & w' & Hsave & _ & Hpost).
  exists self', w'. split; [exact Hsave|].
  apply Hpost. right. split; [reflexivity|]. intros [].
Defined.

Lemma save_first_image_is_main_witness :
  id (sample_image None 8 false STATUS_PENDING) = None
  ∧ QuerySet.count (QuerySet.filter_exercise_base 8 one_main) = 0
  ∧ ∃ pk self' w',
      save (sample_image None 8 false STATUS_PENDING) (sample_world one_main)
      = (Ok self', w')
      ∧ images w' !! pk = Some self' ∧ is_main self' = true.
Proof.
  split; [reflexivity|]. split; [vm_compute; reflexivity|].
  destruct (save_first_image_is_main
              (sample_image None 8 false STATUS_PENDING)
              (sample_world one_main) eq_refl)
    as (pk & self' & w' & Hsave & _ & _ & Hrow & Hmain).
  - vm_compute. reflexivity.
  - exists pk, self', w'. repeat split; assumption.
Defined.

Lemma save_main_clears_others_witness :
  is_main (sample_image None 7 true STATUS_ACCEPTED) = true
  ∧ ∃ pk self' w',
      save (sample_image None 7 true STATUS_ACCEPTED) (sample_world one_main)
      = (Ok self', w')
      ∧ is_main self' = true
      ∧ writes w' = [BulkUpdate 7 false; Persist pk].
Proof.
  split; [reflexivity|].
  destruct (save_main_clears_others
              (sample_image None 7 true STATUS_ACCEPTED)
              (sample_world one_main) eq_refl)
    as (pk & self' & w' & Hsave & _ & Hmain & _ & Hwrites & _).
  exists pk, self', w'. repeat split; assumption.
Defined.

Lemma save_promotes_unaccepted_witness :
  is_main (sample_image None 8 false STATUS_DECLINED) = false
  ∧ QuerySet.count (accepted_of 8 one_main) = 0
  ∧ ∃ pk self' w',
      save (sample_image None 8 false STATUS_DECLINED) (sample_world one_main)
      = (Ok self', w')
      ∧ images w' !! pk = Some self'
      ∧ is_main self' = true
      ∧ status self' = STATUS_DECLINED.
Proof.
  split; [reflexivity|]. split; [vm_compute; reflexivity|].
  destruct (save_promotes_unaccepted
              (sample_image None 8 false STATUS_DECLINED)
              (sample_world one_main) eq_refl)
    as (pk & self' & w' & Hsave & Hrow & Hmain & Hstatus & _).
  - vm_compute. reflexivity.
  - exists pk, self', w'. repeat split; assumption.
Defined.

Lemma delete_promotes_first_accepted_witness :
  id (sample_image (Some 1) 7 true STATUS_ACCEPTED) = Some 1
  ∧ 0 < QuerySet.count (accepted_of 7 (base.delete 1 three_images))
  ∧ QuerySet.count (accepted_main_of 7 (base.delete 1 three_images)) = 0
  ∧ ∃ k r w',
      delete (sample_image (Some 1) 7 true STATUS_ACCEPTED)
        (sample_world three_images) = (Ok (), w')
      ∧ images w' !! k = Some (with_id (Some k) (with_is_main true r))
      ∧ writes w' = [Remove 1; BulkUpdate 7 false; Persist k].
Proof.
  assert (0 < QuerySet.count (accepted_of 7 (base.delete 1 three_images)))
    as Hacc by by_compute.
  split; [reflexivity|]. split; [exact Hacc|]. split; [vm_compute; reflexivity|].
  destruct (delete_promotes_first_accepted
              (sample_image (Some 1) 7 true STATUS_ACCEPTED)
              (sample_world three_images) 1 eq_refl Hacc)
    as (k & r & w' & Hdelete & _ & _ & _ & Hrow & _ & _ & Hwrites).
  - vm_compute. reflexivity.
  - exists k, r, w'. repeat split; assumption.
Defined.

Lemma delete_without_accepted_repairs_nothing_witness :
  id (sample_image (Some 1) 7 true STATUS_ACCEPTED) = Some 1
  ∧ QuerySet.count (accepted_of 7 (base.delete 1 one_main)) = 0
  ∧ ∃ w',
      delete (sample_image (Some 1) 7 true STATUS_ACCEPTED)
        (sample_world one_main) = (Ok (), w')
      ∧ images w' = base.delete 1 one_main
      ∧ writes w' = [Remove 1].
Proof.
  split; [reflexivity|]. split; [vm_compute; reflexivity|].
  destruct (delete_without_accepted_repairs_nothing
              (sample_image (Some 1) 7 true STATUS_ACCEPTED)
              (sample_world one_main) 1 eq_refl)
    as (w' & Hdelete & Himages & Hwrites & _).
  - vm_compute. reflexivity.
  - exists w'. repeat split; assumption.
Defined.

Lemma hooks_invalidate_overviews_witness :
  id (sample_image (Some 1) 7 true STATUS_ACCEPTED) = Some 1
  ∧ length (cache_calls
              (save (sample_image (Some 1) 7 true STATUS_ACCEPTED)
                 (sample_world three_images)).2) = 8
  ∧ ∃ w1, length (cache_calls w1) = 8.
Proof.
  split; [reflexivity|].
  destruct (hooks_invalidate_overviews
              (sample_image (Some 1) 7 true STATUS_ACCEPTED)
              (sample_world three_images)) as (Hlen & Hsave & Hdelete).
  split; [rewrite Hsave; reflexivity|].
  destruct (Hdelete 1 eq_refl) as (w1 & Hw1 & _).
  exists w1. rewrite Hw1. reflexivity.
Defined.

Lemma set_author_trusted_witness :
  has_perm (user (sample_request true)) "exercises.add_exerciseimage" = true
  ∧ ∃ self',
      set_author (sample_image None 7 false STATUS_PENDING)
        (sample_request true) (sample_world ∅)
      = (Ok self', sample_world ∅)
      ∧ status self' = STATUS_ACCEPTED.
Proof.
  split; [reflexivity|].
  destruct (set_author_trusted (sample_image None 7 false STATUS_PENDING)
              (sample_request true) (sample_world ∅) eq_refl)
    as (self' & domain & Hrun & _ & _ & Hstatus & _).
  exists self'. split; assumption.
Defined.

Lemma set_author_untrusted_raises_witness :
  has_perm (user (sample_request false)) "exercises.add_exerciseimage" = false
  ∧ set_author (sample_image None 7 false STATUS_PENDING)
      (sample_request false) (sample_world ∅)
    = (Raise AttributeError, sample_world ∅).
Proof.
  split; [reflexivity|].
  exact (proj1 (set_author_untrusted_raises
                  (sample_image None 7 false STATUS_PENDING)
                  (sample_request false) (sample_world ∅) eq_refl)).
Defined.

Lemma upload_dir_path_witness :
  exercise_image_upload_dir (sample_image (Some 1) 7 true STATUS_ACCEPTED)
    "squat.png"
  = Some "exercise-images/7/12345678-1234-5678-1234-567812345678.png".
Proof.
  destruct (upload_dir_path (sample_image (Some 1) 7 true STATUS_ACCEPTED)
              "squat.png") as (Hpath & Hext & _).
  rewrite Hpath, (Hext "squat" "png");
    [reflexivity|discriminate|discriminate|reflexivity..|left; reflexivity].
Defined.


(** * Further properties of the hooks *)

(** ** [save]: what is stored and what is left alone *)

Lemma dom_before_super_save self w :
  dom (images (before_super_save self w)) = dom (images w).
Proof.
  apply set_eq. intros k.
  rewrite !elem_of_dom, lookup_before_super_save. apply fmap_is_Some.
Qed.

Lemma saved_pk_of_key self w k : id self = Some k → saved_pk self w = k.
Proof. intros Hid. unfold saved_pk. by rewrite Hid. Qed.


(** A record saved with the flag cleared changes no other row: the only
    write sent to the store is the one of the record itself, whether it is
    then stored with the flag cleared or set. *)
Theorem save_unflagged_changes_no_other_row
    (self : ExerciseImage) (w : World) :
  is_main self = false →
  ∃ pk self' w',
    save self w = (Ok self', w')
    ∧ id self' = Some pk
    ∧ writes w' = writes w ++ [Persist pk]
    ∧ ∀ k, k ≠ pk → images w' !! k = images w !! k.
Proof.
  intros Hm. exists (saved_pk self w), (saved self w), (after_save self w).
  split; [apply save_eq|]. split; [done|].
  split; [by rewrite writes_after_save, Hm|].
  intros k Hk. rewrite lookup_after_save, decide_False by done.
  destruct (images w !! k) as [r|]; simpl; [|done].
  by rewrite cleared_row_not_main.
Qed.

(** A record saved with the flag cleared is stored with the flag set exactly
    when its base has no accepted main image: the test for "no accepted
    image at all" in [save] adds nothing to the test for "no accepted main
    image". *)
Theorem save_unflagged_promoted_iff (self : ExerciseImage) (w : World) :
  is_main self = false →
  ∃ self' w',
    save self w = (Ok self', w')
    ∧ (is_main self' = true
       ↔ QuerySet.count
           (accepted_main_of (exercise_base self) (images w)) = 0).
Proof.
  intros Hm. exists (saved self w), (after_save self w).
  split; [apply save_eq|].
  unfold saved, saved_flag. simpl. rewrite Hm. simpl.
  apply no_accepted_main_spec.
Qed.

Lemma cleared_row_twice self self' r :
  is_main self' = is_main self → exercise_base self' = exercise_base self →
  cleared_row self' (cleared_row self r) = cleared_row self r.
Proof.
  intros Hm Hb. unfold cleared_row at 1. rewrite Hm, Hb.
  rewrite cleared_row_exercise_base. unfold cleared_row.
  by destruct (is_main self && bool_decide _).
Qed.

(** Saving a record with the flag set and saving what [save] returned once
    more gives the same record and the same table: the second save changes
    no row. *)
Theorem save_flagged_twice (self : ExerciseImage) (w : World) :
  is_main self = true →
  ∃ self' w' w'',
    save self w = (Ok self', w')
    ∧ save self' w' = (Ok self', w'')
    ∧ images w'' = images w'.
Proof.
  intros Hm.
  assert (saved_flag self w = true) as Hflag by by unfold saved_flag; rewrite Hm.
  assert (saved (saved self w) (after_save self w) = saved self w) as Hsaved.
  { unfold saved at 1. unfold saved_flag, saved_pk. simpl. rewrite Hflag. simpl.
    unfold saved. rewrite Hflag. reflexivity. }
  exists (saved self w), (after_save self w),
    (after_save (saved self w) (after_save self w)).
  split; [apply save_eq|]. split; [by rewrite save_eq, Hsaved|].
  apply map_eq. intros k. rewrite (lookup_after_save (saved self w)), Hsaved.
  assert (saved_pk (saved self w) (after_save self w) = saved_pk self w)
    as -> by done.
  rewrite (lookup_after_save self w).
  destruct (decide (k = saved_pk self w)); [done|].
  destruct (images w !! k) as [r|]; simpl; [|done].
  f_equal. apply cleared_row_twice; [|done]. simpl. by rewrite Hflag.
Qed.

(** ** [delete]: the two ways it ends *)

(** The delete of a stored record ends after the loop over the languages,
    or with the save of the image it promotes. *)
Lemma delete_cases (self : ExerciseImage) (w : World) (pk : nat) :
  id self = Some pk →
  (needs_repair (exercise_base self) (base.delete pk (images w)) = false
   ∧ delete self w = (Ok (), before_repair pk w))
  ∨ ∃ k r,
      needs_repair (exercise_base self) (base.delete pk (images w)) = true
      ∧ accepted_other_of (exercise_base self) (base.delete pk (images w)) !! k
        = Some r
      ∧ delete self w
        = (Ok (),
           after_save (with_is_main true (with_id (Some k) r))
             (before_repair pk w)).
Proof.
  intros Hid. rewrite (delete_run self w pk Hid). simpl.
  destruct (needs_repair _ _) eqn:Hrep; [right|by left].
  pose proof Hrep as Hpos. unfold needs_repair in Hpos.
  apply andb_true_iff in Hpos as [_ Hpos]. apply truthy_true in Hpos.
  destruct (first_spec _ Hpos) as (k & r & Hr & Hfirst & _).
  exists k, r. split; [done|]. split; [done|].
  unfold mbind, M_bind. rewrite Hfirst. simpl. by rewrite save_eq.
Qed.

Lemma needs_repair_false b t :
  needs_repair b t = false →
  0 < QuerySet.count (accepted_of b t) →
  0 < QuerySet.count (accepted_main_of b t).
Proof.
  intros Hrep Hacc.
  destruct (QuerySet.count (accepted_main_of b t)) eqn:Hmain; [|lia].
  pose proof (accepted_other_pos b t Hacc Hmain) as Hother.
  unfold needs_repair in Hrep. rewrite Hmain in Hrep. simpl in Hrep.
  apply truthy_false in Hrep. lia.
Qed.

(** The delete of a stored record removes its row and no other, and adds
    none; the row stays removed when another image is promoted. *)
Theorem delete_removes_exactly_the_row
    (self : ExerciseImage) (w : World) (pk : nat) :
  id self = Some pk →
  ∃ w',
    delete self w = (Ok (), w')
    ∧ images w' !! pk = None
    ∧ dom (images w') = dom (images w) ∖ {[ pk ]}.
Proof.
  intros Hid.
  destruct (delete_cases self w pk Hid) as [[_ ->]|(k & r & _ & Hr & ->)].
  - exists (before_repair pk w). split; [done|]. simpl.
    split; [apply lookup_delete_eq|apply dom_delete_L].
  - eexists. split; [done|].
    apply lookup_accepted_other_of in Hr as (Hr & _).
    assert (k ≠ pk) as Hne by (intros ->; by rewrite lookup_delete_eq in Hr).
    split.
    + rewrite lookup_after_save, decide_False by done. simpl.
      by rewrite lookup_delete_eq.
    + set (image := with_is_main true (with_id (Some k) r)).
      change (images (after_save image (before_repair pk w)))
        with (<[k := saved image (before_repair pk w)]>
                (images (before_super_save image (before_repair pk w)))).
      rewrite dom_insert_L, dom_before_super_save. simpl.
      rewrite dom_delete_L.
      apply subseteq_union_1_L, singleton_subseteq_l.
      rewrite <- dom_delete_L. apply elem_of_dom. by exists r.
Qed.

(** When an accepted main image of the record's base remains after the row
    is removed, the delete changes nothing else: no image is promoted and no
    other row is written. *)
Theorem delete_keeps_remaining_main
    (self : ExerciseImage) (w : World) (pk : nat) :
  id self = Some pk →
  0 < QuerySet.count
        (accepted_main_of (exercise_base self) (base.delete pk (images w))) →
  ∃ w',
    delete self w = (Ok (), w')
    ∧ images w' = base.delete pk (images w)
    ∧ writes w' = writes w ++ [Remove pk].
Proof.
  intros Hid Hmain. exists (before_repair pk w).
  split; [|done].
  destruct (delete_cases self w pk Hid) as [[_ ->]|(k & r & Hrep & _)]; [done|].
  unfold needs_repair in Hrep. apply andb_true_iff in Hrep as [Hrep _].
  apply negb_true_iff, truthy_false in Hrep. lia.
Qed.

Lemma accepted_main_of_delete b pk (t : gmap nat ExerciseImage) k r :
  accepted_main_of b (base.delete pk t) !! k = Some r →
  accepted_main_of b t !! k = Some r.
Proof.
  rewrite !lookup_accepted_main_of. intros (Hr & ?).
  apply lookup_delete_Some in Hr as [_ Hr]. done.
Qed.

(** Without repair: an accepted image of the base that remains comes with
    an accepted main image. *)
Lemma main_image_without_repair b pk w :
  needs_repair b (base.delete pk (images w)) = false →
  (0 < QuerySet.count (accepted_of b (images (before_repair pk w))) →
   0 < QuerySet.count (accepted_main_of b (images (before_repair pk w))))
  ∧ (at_most_one_main b w → main_image_invariant b (before_repair pk w)).
Proof.
  intros Hrep. pose proof (needs_repair_false _ _ Hrep) as Hex.
  split; [exact Hex|]. intros Hpre.
  assert (at_most_one_main b (before_repair pk w)) as Hle.
  { revert Hpre. unfold at_most_one_main, QuerySet.count.
    rewrite !size_le_1_unique. intros Hpre i j x y Hi Hj. simpl in Hi, Hj.
    apply accepted_main_of_delete in Hi, Hj. by apply (Hpre i j x y). }
  split; [done|]. intros Hpos. specialize (Hex Hpos).
  unfold at_most_one_main in Hle. simpl in Hle |- *. lia.
Qed.

(** With repair: the promoted image is the one accepted main image. *)
Lemma main_image_with_repair b pk w k r :
  needs_repair b (base.delete pk (images w)) = true →
  accepted_other_of b (base.delete pk (images w)) !! k = Some r →
  main_image_invariant b
    (after_save (with_is_main true (with_id (Some k) r)) (before_repair pk w))
  ∧ 0 < QuerySet.count
          (accepted_main_of b
             (images (after_save (with_is_main true (with_id (Some k) r))
                        (before_repair pk w)))).
Proof.
  intros Hrep Hr.
  apply lookup_accepted_other_of in Hr as (Hr & Hs & Hb & Hm).
  set (image := with_is_main true (with_id (Some k) r)).
  assert (exercise_base image = b) as Himage by done.
  rewrite <- Himage.
  assert (0 < QuerySet.count
                (accepted_main_of (exercise_base image)
                   (images (after_save image (before_repair pk w))))) as Hpos.
  { apply size_pos_some.
    exists k, (saved image (before_repair pk w)).
    apply lookup_accepted_main_after_save. by left. }
  assert (at_most_one_main (exercise_base image)
            (after_save image (before_repair pk w))) as Hle.
  { apply at_most_one_main_after_save.
    unfold needs_repair in Hrep. apply andb_true_iff in Hrep as [Hrep _].
    apply negb_true_iff, truthy_false in Hrep.
    unfold at_most_one_main. rewrite Himage. simpl. rewrite Hrep. lia. }
  split; [|done]. split; [done|]. intros _.
  unfold at_most_one_main in Hle. lia.
Qed.

(** "Make sure there is always a main image": after the delete of a stored
    record, if the record's base still has an accepted image it has an
    accepted main image; and if it had at most one accepted main image before
    the delete, its main-image invariant holds after it. *)
Theorem delete_restores_main_image
    (self : ExerciseImage) (w : World) (pk : nat) :
  id self = Some pk →
  ∃ w',
    delete self w = (Ok (), w')
    ∧ (0 < QuerySet.count (accepted_of (exercise_base self) (images w')) →
       0 < QuerySet.count (accepted_main_of (exercise_base self) (images w')))
    ∧ (at_most_one_main (exercise_base self) w →
       main_image_invariant (exercise_base self) w').
Proof.
  intros Hid.
  destruct (delete_cases self w pk Hid) as [[Hrep ->]|(k & r & Hrep & Hr & ->)].
  - exists (before_repair pk w). split; [done|].
    by apply main_image_without_repair.
  - eexists. split; [done|].
    destruct (main_image_with_repair _ pk w k r Hrep Hr) as [Hinv Hpos].
    split; [by intros _|]. by intros _.
Qed.

(** ** Runs of hooks *)

Lemma accepted_main_other_base_after_save b self w k r :
  b ≠ exercise_base self →
  accepted_main_of b (images (after_save self w)) !! k = Some r →
  accepted_main_of b (images w) !! k = Some r.
Proof.
  intros Hb. rewrite !lookup_accepted_main_of, lookup_after_save.
  destruct (decide (k = saved_pk self w)) as [->|Hne].
  - intros (Hr & _ & Hbase & _). injection Hr as <-. by destruct Hb.
  - intros (Hr & Hs & Hbase & Hm).
    destruct (images w !! k) as [r0|]; simpl in Hr; [injection Hr as <-|done].
    rewrite cleared_row_exercise_base in Hbase.
    rewrite cleared_row_other_base in * by congruence. done.
Qed.

Lemma at_most_one_main_after_any_save b self w :
  at_most_one_main b w → at_most_one_main b (after_save self w).
Proof.
  destruct (decide (b = exercise_base self)) as [->|Hb].
  - apply at_most_one_main_after_save.
  - unfold at_most_one_main, QuerySet.count. rewrite !size_le_1_unique.
    intros Hpre i j x y Hi Hj.
    apply accepted_main_other_base_after_save in Hi, Hj; [|done..].
    by apply (Hpre i j x y).
Qed.

Lemma at_most_one_main_before_repair b pk w :
  at_most_one_main b w → at_most_one_main b (before_repair pk w).
Proof.
  unfold at_most_one_main, QuerySet.count. rewrite !size_le_1_unique.
  intros Hpre i j x y Hi Hj. simpl in Hi, Hj.
  apply accepted_main_of_delete in Hi, Hj. by apply (Hpre i j x y).
Qed.

Lemma at_most_one_main_step b w w' :
  hook_step w w' → at_most_one_main b w → at_most_one_main b w'.
Proof.
  intros [self w0|self w0] Hpre.
  - rewrite save_eq. by apply at_most_one_main_after_any_save.
  - destruct (id self) as [pk|] eqn:Hid.
    + destruct (delete_cases self w0 pk Hid) as [[_ ->]|(k & r & _ & _ & ->)].
      * by apply at_most_one_main_before_repair.
      * by apply at_most_one_main_after_any_save, at_most_one_main_before_repair.
    + by rewrite (delete_unsaved self w0 Hid).
Qed.

(** "Only one image can be marked as main picture at a time": whatever
    records the hooks are called with, in whatever order, a base that has at
    most one accepted main image keeps at most one, whatever the other
    bases look like. *)
Theorem hooks_keep_at_most_one_main (b : nat) (w w' : World) :
  at_most_one_main b w →
  rtc hook_step w w' →
  at_most_one_main b w'.
Proof.
  intros Hpre Hrun. induction Hrun as [w|w w1 w' Hstep _ IH]; [done|].
  apply IH. by apply (at_most_one_main_step b w w1).
Qed.

(** Two tables with the same rows of base [b] give the same selections. *)
Lemma selections_agree b (t1 t2 : gmap nat ExerciseImage) :
  (∀ k r, t1 !! k = Some r ∧ exercise_base r = b
          ↔ t2 !! k = Some r ∧ exercise_base r = b) →
  accepted_of b t1 = accepted_of b t2
  ∧ accepted_main_of b t1 = accepted_main_of b t2.
Proof.
  intros Hsame. split; apply map_eq; intros k; apply option_eq; intros r.
  - rewrite !lookup_accepted_of. specialize (Hsame k r). tauto.
  - rewrite !lookup_accepted_main_of. specialize (Hsame k r). tauto.
Qed.

Lemma main_image_invariant_agree b w1 w2 :
  (∀ k r, images w1 !! k = Some r ∧ exercise_base r = b
          ↔ images w2 !! k = Some r ∧ exercise_base r = b) →
  main_image_invariant b w1 → main_image_invariant b w2.
Proof.
  intros Hsame. unfold main_image_invariant, at_most_one_main.
  by destruct (selections_agree b _ _ Hsame) as [-> ->].
Qed.

Lemma other_base_rows_after_save b self w :
  b ≠ exercise_base self → keeps_base self w →
  ∀ k r, images w !! k = Some r ∧ exercise_base r = b
         ↔ images (after_save self w) !! k = Some r ∧ exercise_base r = b.
Proof.
  intros Hb Hkeeps k r. rewrite lookup_after_save.
  destruct (decide (k = saved_pk self w)) as [->|Hne].
  - split.
    + intros [Hr Hbase]. exfalso. unfold keeps_base in Hkeeps.
      destruct (id self) as [k0|] eqn:Hid.
      * rewrite (saved_pk_of_key self w k0 Hid) in Hr.
        apply Hb. rewrite <- Hbase. by apply Hkeeps.
      * by rewrite saved_pk_new in Hr.
    + intros [Hr Hbase]. injection Hr as <-. by destruct Hb.
  - destruct (images w !! k) as [r0|]; simpl; [|by split; intros [? _]].
    split.
    + intros [Hr Hbase]. injection Hr as <-.
      by rewrite cleared_row_other_base by congruence.
    + intros [Hr Hbase]. injection Hr as <-.
      rewrite cleared_row_exercise_base in Hbase.
      by rewrite cleared_row_other_base in * by congruence.
Qed.

Lemma other_base_rows_before_repair b pk r w :
  images w !! pk = Some r → b ≠ exercise_base r →
  ∀ k r', images w !! k = Some r' ∧ exercise_base r' = b
          ↔ images (before_repair pk w) !! k = Some r' ∧ exercise_base r' = b.
Proof.
  intros Hrow Hb k r'. simpl. rewrite lookup_delete_Some.
  split; [|tauto]. intros [Hr Hbase]. split; [|done]. split; [|done].
  intros ->. rewrite Hrow in Hr. injection Hr as <-. by destruct Hb.
Qed.

(** The invariant of the record's base after a [save] that [keeps_main]. *)
Lemma main_image_invariant_after_save self w :
  main_image_invariant (exercise_base self) w → keeps_main self w →
  main_image_invariant (exercise_base self) (after_save self w).
Proof.
  intros [Hle Hex] Hcase.
  pose proof (at_most_one_main_after_save self w Hle) as Hle'.
  split; [done|]. intros Hpos.
  assert (0 < QuerySet.count
                (accepted_main_of (exercise_base self)
                   (images (after_save self w)))) as Hsome;
    [|unfold at_most_one_main in Hle'; lia].
  apply size_pos_some.
  destruct Hcase as [[Hm Hs]|[Hm Hns]].
  - exists (saved_pk self w), (saved self w).
    apply lookup_accepted_main_after_save. left.
    by unfold saved_flag; rewrite Hm.
  - destruct (no_accepted_main (exercise_base self) (images w)) eqn:Hflag.
    + destruct (decide (status self = STATUS_ACCEPTED)) as [Hs|Hs].
      * exists (saved_pk self w), (saved self w).
        apply lookup_accepted_main_after_save. left.
        by unfold saved_flag; rewrite Hm, Hflag.
      * apply size_pos_some in Hpos as (k & r & Hr).
        apply lookup_accepted_after_save in Hr as [[_ ?]|[_ [r0 Hr0]]]; [done|].
        apply no_accepted_main_spec in Hflag.
        rewrite Hex in Hflag; [done|]. apply size_pos_some. by exists k, r0.
    + assert (∃ k r, accepted_main_of (exercise_base self) (images w) !! k
                     = Some r) as (k & r & Hr).
      { apply size_pos_some.
        destruct (QuerySet.count
                    (accepted_main_of (exercise_base self) (images w)))
          eqn:Hc; [|unfold QuerySet.count in Hc; lia].
        apply no_accepted_main_spec in Hc. congruence. }
      exists k, r. apply lookup_accepted_main_after_save. right.
      split; [|done]. intros ->. apply Hns. unfold is_stored_accepted_main.
      destruct (id self) as [k|] eqn:Hid.
      * rewrite (saved_pk_of_key self w k Hid) in Hr. by exists r.
      * apply lookup_accepted_main_of in Hr as [Hr _].
        by rewrite saved_pk_new in Hr.
Qed.

Lemma main_image_invariant_guarded_step b w w' :
  guarded_step w w' → main_image_invariant b w → main_image_invariant b w'.
Proof.
  intros [self w0 Hbase Hmain|pk r w0 Hrow] Hpre.
  - rewrite save_eq. simpl.
    destruct (decide (b = exercise_base self)) as [->|Hb].
    + by apply main_image_invariant_after_save.
    + apply (main_image_invariant_agree b w0);
        [by apply other_base_rows_after_save|done].
  - set (self := with_id (Some pk) r).
    destruct (decide (b = exercise_base r)) as [->|Hb].
    + destruct Hpre as [Hle Hex].
      destruct (delete_cases self w0 pk eq_refl)
        as [[Hrep ->]|(k & r' & Hrep & Hr' & ->)].
      * by apply main_image_without_repair.
      * by apply main_image_with_repair.
    + pose proof (main_image_invariant_agree b w0 _
                    (other_base_rows_before_repair b pk r w0 Hrow Hb) Hpre)
        as Hmid.
      destruct (delete_cases self w0 pk eq_refl)
        as [[_ ->]|(k & r' & _ & Hr' & ->)]; [exact Hmid|].
      destruct (proj1 (lookup_accepted_other_of _ _ _ _) Hr')
        as (Hrk & _ & Hbase' & _).
      apply (main_image_invariant_agree b (before_repair pk w0)); [|done].
      apply other_base_rows_after_save; [by simpl; rewrite Hbase'|].
      unfold keeps_base. simpl. intros r0 Hr0.
      simpl in Hrk. rewrite Hrk in Hr0. by injection Hr0 as <-.
Qed.

(** Runs of guarded calls keep the main-image invariant of every base: the
    saves of records that are new or keep the base of their row, and that
    neither carry the flag without being accepted nor are the accepted main
    image with the flag cleared, and the deletes of rows as they are
    stored. *)
Theorem guarded_hooks_keep_invariant (w w' : World) :
  (∀ b, main_image_invariant b w) →
  rtc guarded_step w w' →
  ∀ b, main_image_invariant b w'.
Proof.
  intros Hpre Hrun. induction Hrun as [w|w w1 w' Hstep _ IH]; [done|].
  apply IH. intros b. by apply (main_image_invariant_guarded_step b w w1).
Qed.

(** ** The upload path *)

Lemma uuid_hex_uuid_str (u : N) : uuid_hex (uuid_str u) = PyStr.hex_fixed 32 u.
Proof. reflexivity. Qed.

Lemma uuid_str_length (u : N) : String.length (uuid_str u) = 36.
Proof. reflexivity. Qed.

Lemma append_length_inj (a a' r r' : string) :
  String.length a = String.length a' →
  a +:+ r = a' +:+ r' → a = a' ∧ r = r'.
Proof.
  revert a'. induction a as [|c a IH]; intros [|c' a'] Hlen Heq;
    try discriminate Hlen.
  - done.
  - rewrite !append_cons in Heq. injection Heq as -> Heq.
    injection Hlen as Hlen. destruct (IH a' Hlen Heq) as [-> ->]. done.
Qed.

Lemma append_sep_inj c (a a' r r' : string) :
  PyStr.contains c a = false → PyStr.contains c a' = false →
  a +:+ String c r = a' +:+ String c r' → a = a' ∧ r = r'.
Proof.
  revert a'. induction a as [|x a IH]; intros [|x' a'] Ha Ha' Heq;
    rewrite ?append_nil, ?append_cons in Heq.
  - by injection Heq as ->.
  - injection Heq as <- _. cbn in Ha'. by rewrite Ascii.eqb_refl in Ha'.
  - injection Heq as -> _. cbn in Ha. by rewrite Ascii.eqb_refl in Ha.
  - injection Heq as -> Heq. cbn in Ha, Ha'.
    apply orb_false_iff in Ha as [_ Ha]. apply orb_false_iff in Ha' as [_ Ha'].
    destruct (IH a' Ha Ha' Heq) as [-> ->]. done.
Qed.

Lemma hex_fixed_length (w : nat) (v : N) :
  String.length (PyStr.hex_fixed w v) = w.
Proof.
  revert v. induction w as [|w IH]; intros v; [done|].
  cbn [PyStr.hex_fixed]. rewrite length_append, IH. cbn. lia.
Qed.

Lemma hex_digit_inj (n m : N) :
  (n < 16)%N → (m < 16)%N → PyStr.hex_digit n = PyStr.hex_digit m → n = m.
Proof.
  intros Hn Hm Heq. apply (f_equal N_of_ascii) in Heq. revert Heq.
  unfold PyStr.hex_digit.
  destruct (N.ltb_spec n 10), (N.ltb_spec m 10);
    rewrite !N_ascii_embedding by lia; lia.
Qed.

Lemma hex_fixed_inj (w : nat) (v v' : N) :
  (v < 16 ^ N.of_nat w)%N → (v' < 16 ^ N.of_nat w)%N →
  PyStr.hex_fixed w v = PyStr.hex_fixed w v' → v = v'.
Proof.
  revert v v'. induction w as [|w IH]; intros v v' Hv Hv' Heq.
  - cbn in Hv, Hv'. lia.
  - rewrite Nat2N.inj_succ, N.pow_succ_r' in Hv, Hv'.
    cbn [PyStr.hex_fixed] in Heq.
    apply append_length_inj in Heq as [Hhigh Hlow];
      [|by rewrite !hex_fixed_length].
    injection Hlow as Hlow.
    apply hex_digit_inj in Hlow; [|by apply N.mod_lt..].
    apply IH in Hhigh; [|by apply N.Div0.div_lt_upper_bound..].
    rewrite (N.div_mod v 16), (N.div_mod v' 16) by done. congruence.
Qed.

(** The text forms of two 128-bit uuids differ when the uuids do. *)
Lemma uuid_str_inj (u u' : N) :
  (u < 2 ^ 128)%N → (u' < 2 ^ 128)%N → uuid_str u = uuid_str u' → u = u'.
Proof.
  intros Hu Hu' Heq. apply (f_equal uuid_hex) in Heq.
  rewrite !uuid_hex_uuid_str in Heq.
  by apply (hex_fixed_inj 32) in Heq.
Qed.

Lemma contains_take c n (s : string) :
  PyStr.contains c s = false → PyStr.contains c (PyStr.take n s) = false.
Proof.
  revert n. induction s as [|a s IH]; intros [|n]; cbn; try done.
  intros [-> Hs]%orb_false_iff. by apply IH.
Qed.

Lemma contains_drop c n (s : string) :
  PyStr.contains c s = false → PyStr.contains c (PyStr.drop n s) = false.
Proof.
  revert n. induction s as [|a s IH]; intros [|n]; cbn; try done.
  intros [_ Hs]%orb_false_iff. by apply IH.
Qed.

Lemma hex_fixed_no_slash (w : nat) (v : N) :
  PyStr.contains "/" (PyStr.hex_fixed w v) = false.
Proof.
  revert v. induction w as [|w IH]; intros v; [done|].
  cbn [PyStr.hex_fixed]. rewrite contains_append, IH. cbn.
  rewrite orb_false_r. apply Ascii.eqb_neq. intros Heq.
  apply (f_equal N_of_ascii) in Heq. revert Heq. unfold PyStr.hex_digit.
  assert (v mod 16 < 16)%N as Hd by by apply N.mod_lt.
  revert Hd. generalize (v mod 16)%N. intros d Hd.
  destruct (N.ltb_spec d 10);
    rewrite N_ascii_embedding by lia;
    change (N_of_ascii "/") with 47%N; lia.
Qed.

Lemma uuid_str_no_slash (u : N) : PyStr.contains "/" (uuid_str u) = false.
Proof.
  unfold uuid_str. pose proof (hex_fixed_no_slash 32 u) as Hhex.
  rewrite !contains_append, !contains_take, !contains_drop
    by (try apply contains_drop; exact Hhex).
  reflexivity.
Qed.

Lemma split_parts_no_sep sep (s : string) :
  Forall (λ p, PyStr.contains sep p = false) (PyStr.split sep s).
Proof.
  induction s as [|a s IH]; cbn; [by repeat constructor|].
  destruct (Ascii.eqb a sep) eqn:Ha; [by constructor|].
  destruct (PyStr.split sep s) as [|p ps];
    [repeat constructor; cbn; by rewrite Ha|].
  apply Forall_cons in IH as [Hp Hps]. constructor; [|done].
  cbn. by rewrite Ha, Hp.
Qed.

Lemma name_no_slash (p : string) :
  PyStr.contains "/" (PathLib.name p) = false.
Proof.
  unfold PathLib.name, PathLib.parts.
  destruct (last _) as [c|] eqn:Hlast; [|done]. simpl.
  apply last_Some_elem_of, list_elem_of_filter in Hlast as [_ Hc].
  by apply (proj1 (Forall_forall _ _) (split_parts_no_sep "/" p)).
Qed.

Lemma rfind_ge (c : ascii) (s : string) : (-1 ≤ PyStr.rfind c s)%Z.
Proof.
  induction s as [|a s IH]; cbn; [done|].
  destruct (Z.leb_spec 0 (PyStr.rfind c s)); [lia|].
  destruct (Ascii.eqb a c); lia.
Qed.

Lemma rfind_found (c : ascii) (s : string) :
  (0 ≤ PyStr.rfind c s)%Z →
  ∃ pre post,
    s = pre +:+ String c post
    ∧ PyStr.rfind c s = Z.of_nat (String.length pre)
    ∧ PyStr.contains c post = false.
Proof.
  induction s as [|a s IH]; cbn; [lia|].
  destruct (Z.leb_spec 0 (PyStr.rfind c s)) as [Hr|Hr].
  - intros _. destruct (IH Hr) as (pre & post & -> & Hlen & Hpost).
    exists (String a pre), post. rewrite append_cons. split; [done|].
    split; [|done]. rewrite Hlen. cbn. lia.
  - destruct (Ascii.eqb a c) eqn:Ha; [|lia]. intros _.
    apply Ascii.eqb_eq in Ha as ->. exists "", s. split; [done|].
    split; [done|].
    destruct (PyStr.contains c s) eqn:Hs; [|done].
    exfalso. clear IH. revert Hr. induction s as [|x s IH]; [done|].
    cbn in Hs |- *. destruct (Z.leb_spec 0 (PyStr.rfind c s)); [lia|].
    destruct (Ascii.eqb x c); [lia|]. simpl in Hs. intros _. apply IH; [done|lia].
Qed.

(** The shape of a suffix: empty, or a dot followed by text that is not
    empty and holds neither a dot nor a slash, and then the name of the path
    is a stem that is not empty followed by the suffix. *)
Lemma suffix_shape (p : string) :
  PathLib.suffix p = ""
  ∨ ∃ stem ext,
      PathLib.suffix p = String "." ext
      ∧ PathLib.name p = stem +:+ String "." ext
      ∧ stem ≠ "" ∧ ext ≠ ""
      ∧ PyStr.contains "." ext = false
      ∧ PyStr.contains "/" ext = false.
Proof.
  unfold PathLib.suffix. cbn zeta. case_bool_decide as Hcond; [right|by left].
  destruct Hcond as [Hpos Hend].
  destruct (rfind_found "." (PathLib.name p)) as (pre & post & Hname & Hi & Hpost);
    [lia|].
  pose proof (name_no_slash p) as Hslash.
  rewrite Hi in Hpos, Hend |- *. rewrite Nat2Z.id.
  rewrite Hname in Hslash, Hend |- *. rewrite drop_append.
  rewrite length_append in Hend. cbn in Hend.
  rewrite contains_append in Hslash. cbn in Hslash.
  apply orb_false_iff in Hslash as [_ Hslash].
  exists pre, post. repeat split; try done.
  - intros ->. cbn in Hpos. lia.
  - intros ->. cbn in Hend. lia.
Qed.

Lemma pretty_N_go_no_slash (x : N) (s : string) :
  PyStr.contains "/" s = false → PyStr.contains "/" (pretty_N_go x s) = false.
Proof.
  revert s. induction (N.lt_wf_0 x) as [x _ IH]; intros s Hs.
  assert (x = 0 ∨ 0 < x)%N as [->|Hx] by lia.
  - by rewrite pretty_N_go_0.
  - rewrite pretty_N_go_step by done. apply IH; [by apply N.div_lt|].
    cbn. rewrite Hs, orb_false_r. unfold pretty_N_char.
    by repeat case_match.
Qed.

Lemma pretty_nat_no_slash (n : nat) : PyStr.contains "/" (pretty n) = false.
Proof.
  unfold pretty, pretty_nat, pretty, pretty_N.
  case_decide; [done|]. by apply pretty_N_go_no_slash.
Qed.

(** Whatever the uploaded file is called, its name adds no directory to the
    upload path: the path is ["exercise-images"], the key of the base, and
    one file name, and neither the key nor the file name holds a slash. *)
Theorem upload_dir_has_three_parts
    (instance : ExerciseImage) (filename : string) :
  ∃ file,
    exercise_image_upload_dir instance filename
    = Some ("exercise-images/" +:+ pretty (exercise_base instance) +:+ "/" +:+
            file)
    ∧ PyStr.contains "/" (pretty (exercise_base instance)) = false
    ∧ PyStr.contains "/" file = false.
Proof.
  exists (uuid_str (uuid instance) +:+ PathLib.suffix filename).
  split; [apply format_upload_dir|]. split; [apply pretty_nat_no_slash|].
  rewrite contains_append, uuid_str_no_slash. simpl.
  destruct (suffix_shape filename) as [->|(stem & ext & -> & _ & _ & _ & _ & Hext)];
    [done|].
  cbn. by rewrite Hext.
Qed.

(** Of the uploaded file name the upload path keeps its last extension and
    nothing else.  When the name of the file (its final component) is a stem
    that is not empty, a dot, and text that is not empty and holds no dot,
    what follows the uuid is that dot and that text; for every other file
    name nothing follows the uuid. *)
Theorem upload_dir_keeps_last_extension
    (instance : ExerciseImage) (filename : string) :
  ∃ ext,
    exercise_image_upload_dir instance filename
    = Some ("exercise-images/" +:+ pretty (exercise_base instance) +:+ "/" +:+
            uuid_str (uuid instance) +:+ ext)
    ∧ (∀ stem e,
         PathLib.name filename = stem +:+ String "." e →
         stem ≠ "" → e ≠ "" → PyStr.contains "." e = false →
         ext = String "." e)
    ∧ ((∀ stem e,
          PathLib.name filename = stem +:+ String "." e →
          stem ≠ "" → e ≠ "" → PyStr.contains "." e = false → False) →
       ext = "").
Proof.
  exists (PathLib.suffix filename). split; [apply format_upload_dir|]. split.
  - intros stem e Hname Hstem He Hdot. unfold PathLib.suffix.
    rewrite Hname. by apply suffix_of_name.
  - intros Hnone.
    destruct (suffix_shape filename)
      as [->|(stem & e & _ & Hname & Hstem & He & Hdot & _)]; [done|].
    by destruct (Hnone stem e).
Qed.

(** Two upload paths are equal only for the same base, the same uuid and
    the same extension: images with different (128-bit) uuids are never
    stored under the same path. *)
Theorem upload_dir_injective
    (i1 i2 : ExerciseImage) (f1 f2 : string) :
  (uuid i1 < 2 ^ 128)%N → (uuid i2 < 2 ^ 128)%N →
  exercise_image_upload_dir i1 f1 = exercise_image_upload_dir i2 f2 →
  exercise_base i1 = exercise_base i2
  ∧ uuid i1 = uuid i2
  ∧ PathLib.suffix f1 = PathLib.suffix f2.
Proof.
  intros Hu1 Hu2. unfold exercise_image_upload_dir. cbn zeta.
  rewrite !format_upload_dir. intros Heq. injection Heq as Heq.
  apply append_length_inj in Heq as [_ Heq]; [|done].
  change ("/" +:+ ?x) with (String "/" x) in Heq.
  apply append_sep_inj in Heq as [Hbase Heq];
    [|apply pretty_nat_no_slash..].
  apply append_length_inj in Heq as [Huuid Hext];
    [|by rewrite !uuid_str_length].
  split; [by apply (inj pretty)|]. split; [by apply uuid_str_inj|done].
Qed.

(** ** [delete] and [set_author]: edge behaviour *)

(** [delete] returns normally exactly for the records that have a key.  For
    a record that was never saved it raises before anything is done: no row
    is removed, no cache fragment is invalidated, no image is promoted.  For
    a record with a key it never raises, whatever the table holds: the image
    read with [[0]] is there whenever the repair is entered. *)
Theorem delete_returns_iff_keyed (self : ExerciseImage) (w : World) :
  (id self = None ∧ delete self w = (Raise ValueError, w))
  ∨ (∃ pk w', id self = Some pk ∧ delete self w = (Ok (), w')).
Proof.
  destruct (id self) as [pk|] eqn:Hid.
  - right. exists pk.
    destruct (delete_cases self w pk Hid) as [[_ ->]|(k & r & _ & _ & ->)];
      eexists; by split.
  - left. split; [done|]. by apply delete_unsaved.
Qed.

(** For a user who holds the permission, calling [set_author] a second time
    with the same request, on the record the first call returned, returns
    that record unchanged: the status and the author are settled by the
    first call, also when the author it set is the empty host name. *)
Theorem set_author_trusted_twice
    (self : ExerciseImage) (request : Request) (w : World) :
  has_perm (user request) "exercises.add_exerciseimage" = true →
  ∃ self',
    set_author self request w = (Ok self', w)
    ∧ set_author self' request w = (Ok self', w).
Proof.
  intros Hperm. unfold set_author. rewrite Hperm.
  destruct (split_head ":" (get_host request)) as (d & ps & Hsplit & _).
  rewrite Hsplit. cbn [license_author with_status].
  destruct (truthy_str (license_author self)) eqn:Hauthor; cbn [negb].
  - exists (with_status STATUS_ACCEPTED self). split; [done|].
    cbn [license_author with_status]. by rewrite Hauthor.
  - exists (with_license_author (Some d) (with_status STATUS_ACCEPTED self)).
    split; [done|]. cbn [license_author with_license_author].
    destruct (truthy_str (Some d)); done.
Qed.

(** ** [save] as a repair *)

(** Saving an accepted record with the flag set repairs its base whatever
    the table held before: afterwards the record is the one accepted main
    image of the base, also when the base had several or none. *)
Theorem save_flagged_accepted_repairs (self : ExerciseImage) (w : World) :
  is_main self = true → status self = STATUS_ACCEPTED →
  ∃ pk self' w',
    save self w = (Ok self', w')
    ∧ main_image_invariant (exercise_base self) w'
    ∧ ∀ k r,
        accepted_main_of (exercise_base self) (images w') !! k = Some r
        ↔ k = pk ∧ r = self'.
Proof.
  intros Hm Hs. exists (saved_pk self w), (saved self w), (after_save self w).
  split; [apply save_eq|].
  assert (∀ k r,
            accepted_main_of (exercise_base self) (images (after_save self w))
              !! k = Some r
            ↔ k = saved_pk self w ∧ r = saved self w) as Honly.
  { intros k r. rewrite lookup_accepted_main_after_save. split.
    - intros [(-> & -> & _)|(_ & Hfalse & _)]; [done|congruence].
    - intros [-> ->]. left. by unfold saved_flag; rewrite Hm. }
  split; [|done].
  assert (QuerySet.count
            (accepted_main_of (exercise_base self) (images (after_save self w)))
          = 1) as Hone.
  { apply size_1_unique. exists (saved_pk self w), (saved self w).
    split; [by apply Honly|]. intros j y Hj. by apply Honly in Hj as [-> _]. }
  split; [unfold at_most_one_main; lia|done].
Qed.

(** ** Closed instances of the further properties *)

Lemma empty_table_invariant (b : nat) :
  main_image_invariant b (sample_world ∅).
Proof.
  assert (∀ k r, accepted_of b (∅ : gmap nat ExerciseImage) !! k = Some r →
                 False) as Hnone.
  { intros k r [Hr _]%lookup_accepted_of. by rewrite lookup_empty in Hr. }
  assert (QuerySet.count (accepted_of b (images (sample_world ∅))) = 0)
    as Hacc by by apply size_0_none.
  pose proof (accepted_main_count_le b (images (sample_world ∅))).
  split; [unfold at_most_one_main|]; lia.
Qed.

Lemma save_unflagged_changes_no_other_row_witness :
  is_main (sample_image None 7 false STATUS_ACCEPTED) = false
  ∧ ∃ pk self' w',
      save (sample_image None 7 false STATUS_ACCEPTED) (sample_world one_main)
      = (Ok self', w')
      ∧ writes w' = [Persist pk].
Proof.
  split; [reflexivity|].
  destruct (save_unflagged_changes_no_other_row
              (sample_image None 7 false STATUS_ACCEPTED)
              (sample_world one_main) eq_refl)
    as (pk & self' & w' & Hsave & _ & Hwrites & _).
  exists pk, self', w'. split; assumption.
Defined.

Lemma save_unflagged_promoted_iff_witness :
  is_main (sample_image None 7 false STATUS_ACCEPTED) = false
  ∧ ∃ self' w',
      save (sample_image None 7 false STATUS_ACCEPTED) (sample_world ∅)
      = (Ok self', w')
      ∧ is_main self' = true.
Proof.
  split; [reflexivity|].
  destruct (save_unflagged_promoted_iff
              (sample_image None 7 false STATUS_ACCEPTED)
              (sample_world ∅) eq_refl) as (self' & w' & Hsave & Hiff).
  exists self', w'. split; [exact Hsave|]. apply Hiff. vm_compute. reflexivity.
Defined.

Lemma save_flagged_twice_witness :
  is_main (sample_image None 7 true STATUS_PENDING) = true
  ∧ ∃ self' w' w'',
      save (sample_image None 7 true STATUS_PENDING) (sample_world one_main)
      = (Ok self', w')
      ∧ save self' w' = (Ok self', w'')
      ∧ images w'' = images w'.
Proof.
  split; [reflexivity|].
  exact (save_flagged_twice (sample_image None 7 true STATUS_PENDING)
           (sample_world one_main) eq_refl).
Defined.

Lemma delete_removes_exactly_the_row_witness :
  id (sample_image (Some 1) 7 true STATUS_ACCEPTED) = Some 1
  ∧ ∃ w',
      delete (sample_image (Some 1) 7 true STATUS_ACCEPTED)
        (sample_world three_images) = (Ok (), w')
      ∧ images w' !! 1 = None
      ∧ dom (images w') = dom three_images ∖ {[ 1 ]}.
Proof.
  split; [reflexivity|].
  exact (delete_removes_exactly_the_row
           (sample_image (Some 1) 7 true STATUS_ACCEPTED)
           (sample_world three_images) 1 eq_refl).
Defined.

Lemma delete_keeps_remaining_main_witness :
  id (sample_image (Some 3) 7 false STATUS_ACCEPTED) = Some 3
  ∧ 0 < QuerySet.count (accepted_main_of 7 (base.delete 3 three_images))
  ∧ ∃ w',
      delete (sample_image (Some 3) 7 false STATUS_ACCEPTED)
        (sample_world three_images) = (Ok (), w')
      ∧ images w' = base.delete 3 three_images
      ∧ writes w' = [Remove 3].
Proof.
  assert (0 < QuerySet.count (accepted_main_of 7 (base.delete 3 three_images)))
    as Hmain by by_compute.
  split; [reflexivity|]. split; [exact Hmain|].
  exact (delete_keeps_remaining_main
           (sample_image (Some 3) 7 false STATUS_ACCEPTED)
           (sample_world three_images) 3 eq_refl Hmain).
Defined.

Lemma delete_restores_main_image_witness :
  id (sample_image (Some 1) 7 true STATUS_ACCEPTED) = Some 1
  ∧ at_most_one_main 7 (sample_world three_images)
  ∧ ∃ w',
      delete (sample_image (Some 1) 7 true STATUS_ACCEPTED)
        (sample_world three_images) = (Ok (), w')
      ∧ main_image_invariant 7 w'.
Proof.
  assert (at_most_one_main 7 (sample_world three_images)) as Hone
    by (unfold at_most_one_main; by_compute).
  split; [reflexivity|]. split; [exact Hone|].
  destruct (delete_restores_main_image
              (sample_image (Some 1) 7 true STATUS_ACCEPTED)
              (sample_world three_images) 1 eq_refl)
    as (w' & Hdelete & _ & Hinv).
  exists w'. split; [exact Hdelete|exact (Hinv Hone)].
Defined.

Lemma hooks_keep_at_most_one_main_witness :
  at_most_one_main 7 (sample_world two_mains_elsewhere)
  ∧ ¬ at_most_one_main 8 (sample_world two_mains_elsewhere)
  ∧ at_most_one_main 7
      (delete (sample_image (Some 1) 7 true STATUS_ACCEPTED)
         (save (sample_image None 7 true STATUS_PENDING)
            (save (sample_image None 7 false STATUS_ACCEPTED)
               (sample_world two_mains_elsewhere)).2).2).2.
Proof.
  assert (at_most_one_main 7 (sample_world two_mains_elsewhere)) as Hpre
    by (unfold at_most_one_main; by_compute).
  split; [exact Hpre|]. split.
  - unfold at_most_one_main. apply (bool_decide_eq_false_1 _).
    vm_compute. reflexivity.
  - apply (hooks_keep_at_most_one_main 7 (sample_world two_mains_elsewhere) _
             Hpre).
    apply (rtc_l _ _
             (save (sample_image None 7 false STATUS_ACCEPTED)
                (sample_world two_mains_elsewhere)).2).
    { apply (step_save (sample_image None 7 false STATUS_ACCEPTED)). }
    apply (rtc_l _ _
             (save (sample_image None 7 true STATUS_PENDING)
                (save (sample_image None 7 false STATUS_ACCEPTED)
                   (sample_world two_mains_elsewhere)).2).2).
    { apply (step_save (sample_image None 7 true STATUS_PENDING)). }
    apply rtc_once.
    apply (step_delete (sample_image (Some 1) 7 true STATUS_ACCEPTED)).
Defined.

Lemma guarded_hooks_keep_invariant_witness :
  (∀ b, main_image_invariant b (sample_world ∅))
  ∧ ∀ b, main_image_invariant b
           (save (sample_image None 7 false STATUS_PENDING)
              (save (sample_image None 7 true STATUS_ACCEPTED)
                 (sample_world ∅)).2).2.
Proof.
  split; [exact empty_table_invariant|].
  apply (guarded_hooks_keep_invariant (sample_world ∅) _ empty_table_invariant).
  apply (rtc_l _ _
           (save (sample_image None 7 true STATUS_ACCEPTED) (sample_world ∅)).2).
  - apply (guarded_save (sample_image None 7 true STATUS_ACCEPTED));
      [exact I|]. left. split; reflexivity.
  - apply rtc_once.
    apply (guarded_save (sample_image None 7 false STATUS_PENDING));
      [exact I|]. right. split; [reflexivity|]. intros [].
Defined.

Lemma upload_dir_injective_witness :
  (uuid (sample_image (Some 1%nat) 7%nat true STATUS_ACCEPTED) < 2 ^ 128)%N
  ∧ exercise_image_upload_dir
      (sample_image (Some 1) 7 true STATUS_ACCEPTED) "front.png"
    = exercise_image_upload_dir
        (sample_image (Some 2) 7 false STATUS_PENDING) "back.png"
  ∧ PathLib.suffix "front.png" = PathLib.suffix "back.png".
Proof.
  assert (uuid (sample_image (Some 1%nat) 7%nat true STATUS_ACCEPTED) < 2 ^ 128)%N
    as Hu by reflexivity.
  assert (exercise_image_upload_dir
            (sample_image (Some 1) 7 true STATUS_ACCEPTED) "front.png"
          = exercise_image_upload_dir
              (sample_image (Some 2) 7 false STATUS_PENDING) "back.png")
    as Hpath by (vm_compute; reflexivity).
  split; [exact Hu|]. split; [exact Hpath|].
  exact (proj2 (proj2 (upload_dir_injective _ _ _ _ Hu Hu Hpath))).
Defined.

Lemma save_flagged_accepted_repairs_witness :
  is_main (sample_image None 7 true STATUS_ACCEPTED) = true
  ∧ status (sample_image None 7 true STATUS_ACCEPTED) = STATUS_ACCEPTED
  ∧ ∃ self' w',
      save (sample_image None 7 true STATUS_ACCEPTED)
        (sample_world three_images) = (Ok self', w')
      ∧ main_image_invariant 7 w'.
Proof.
  split; [reflexivity|]. split; [reflexivity|].
  destruct (save_flagged_accepted_repairs
              (sample_image None 7 true STATUS_ACCEPTED)
              (sample_world three_images) eq_refl eq_refl)
    as (pk & self' & w' & Hsave & Hinv & _).
  exists self', w'. split; assumption.
Defined.


Lemma set_author_trusted_twice_witness :
  has_perm (user (sample_request true)) "exercises.add_exerciseimage" = true
  ∧ ∃ self',
      set_author (sample_image None 7 false STATUS_PENDING)
        (sample_request true) (sample_world ∅)
      = (Ok self', sample_world ∅)
      ∧ set_author self' (sample_request true) (sample_world ∅)
        = (Ok self', sample_world ∅).
Proof.
  split; [reflexivity|].
  exact (set_author_trusted_twice (sample_image None 7 false STATUS_PENDING)
           (sample_request true) (sample_world ∅) eq_refl).
Defined.

Lemma upload_dir_keeps_last_extension_witness :
  exercise_image_upload_dir (sample_image (Some 1) 7 true STATUS_ACCEPTED)
    "photos/squat.tar.gz"
  = Some "exercise-images/7/12345678-1234-5678-1234-567812345678.gz".
Proof.
  destruct (upload_dir_keeps_last_extension
              (sample_image (Some 1) 7 true STATUS_ACCEPTED)
              "photos/squat.tar.gz") as (ext & Hpath & Hext & _).
  rewrite Hpath, (Hext "squat.tar" "gz");
    [reflexivity|vm_compute; reflexivity|discriminate|discriminate|reflexivity].
Defined.
